(** * Sigma-clipped image combination (notebook 01.06-Image-combination)

    A shallow embedding of the cells of [notebooks/01.06-Image-combination.ipynb]
    that compute the clipped average:

<<
    median = np.median(bits, axis=0)
    mad_sigma = mad_std(bits, axis=0)
    exclude = (bits - median) / mad_sigma > 10
    original_values = bits[exclude]
    bits[exclude] = np.nan
    clip_combine = np.nanmean(bits, axis=0)
    bits[exclude] = original_values
>>

    Stack.  [bits] is a two-dimensional numpy array of shape (N, P): a row
    is one of the N images (distributions) to combine, a column is one pixel
    position across them.  Every reduction above runs along axis 0, one
    column at a time.

    Numbers.  [bits] is a float64 array.  In [F] a sample is an exact
    rational extended with the three IEEE special values the cells rely on
    (NaN and the two infinities): [0/0] is NaN, [x/0] is an infinity of the
    sign of [x], every comparison with NaN is false.  Rounding, overflow and
    the sign of zero are outside [F]: its finite arithmetic is exact.  The
    only divisors in the cells are counts and [mad_sigma], a scaled median
    of absolute values, whose zero is the positive one.

    What is stated of the cells over [F] is what does not rest on a sum or
    a quotient being exact: which samples the mask excludes, how the results
    of the cells relate to one another (the clipped average is the mean of
    the samples kept, the plain average where none is excluded), what the
    cells restore and what they raise.  A value such as the mean of N equal
    samples is the sample itself in [F] and a rounded value in float64;
    [Binary64] gives the same cells on binary64 values and runs them where
    the difference shows.

    Threshold.  The notebook writes the threshold as the literal 10.
    [exclude_at] and [combine_at] take it as a parameter; [exclude] and
    [combine] are the cells as written, at 10.

    Outcomes.  numpy raises on arrays whose shapes do not fit (broadcasting,
    boolean indexing, assignment through a mask); these are the [Raise]
    outcomes below.  Its floating-point warnings (division by zero, mean of
    an empty slice) are not exceptions: the operation returns its value. *)

From Stdlib Require Import List Bool Arith ZArith QArith Qcanon Lia Lqa.
From Stdlib Require Import Sorting.Sorted Sorting.Permutation.
From Stdlib Require Floats Uint63.
Import ListNotations.

Set Implicit Arguments.

Close Scope Qc_scope.
Close Scope Q_scope.
Open Scope nat_scope.

(** ** Sample values *)

Module F.

(** A sample: a finite value, held exactly, or one of the IEEE special
    values. *)
Inductive fval : Type :=
| Fin (q : Qc)
| PInf
| NInf
| NaN.

Definition of_Q (q : Q) : fval := Fin (Q2Qc q).
Definition of_Z (z : Z) : fval := of_Q (inject_Z z).

(** A count, as a rational and as a sample value. *)
Definition nQ (n : nat) : Qc := Q2Qc (inject_Z (Z.of_nat n)).
Definition of_nat (n : nat) : fval := Fin (nQ n).

Definition zero : fval := of_Z 0.

Definition isnan (x : fval) : bool :=
  match x with NaN => true | _ => false end.

(** Sign of a rational: [Lt] negative, [Eq] zero, [Gt] positive. *)
Definition sgn (q : Qc) : comparison := (q ?= 0)%Qc.

Definition neg (x : fval) : fval :=
  match x with
  | Fin q => Fin (- q)%Qc
  | PInf => NInf
  | NInf => PInf
  | NaN => NaN
  end.

(** The sum is exact on finite values; the float64 sum is rounded and can
    overflow. *)
Definition add (x y : fval) : fval :=
  match x, y with
  | NaN, _ | _, NaN => NaN
  | PInf, NInf | NInf, PInf => NaN
  | PInf, _ | _, PInf => PInf
  | NInf, _ | _, NInf => NInf
  | Fin a, Fin b => Fin (a + b)%Qc
  end.

Definition sub (x y : fval) : fval :=
  match x, y with
  | NaN, _ | _, NaN => NaN
  | PInf, PInf | NInf, NInf => NaN
  | PInf, _ | _, NInf => PInf
  | NInf, _ | _, PInf => NInf
  | Fin a, Fin b => Fin (a - b)%Qc
  end.

(** An infinity of the given sign; the product of zero and an infinity is NaN. *)
Definition signed_inf (s : comparison) : fval :=
  match s with Gt => PInf | Lt => NInf | Eq => NaN end.

Definition flip (s : comparison) : comparison := CompOpp s.

Definition mul (x y : fval) : fval :=
  match x, y with
  | NaN, _ | _, NaN => NaN
  | Fin a, Fin b => Fin (a * b)%Qc
  | Fin a, PInf | PInf, Fin a => signed_inf (sgn a)
  | Fin a, NInf | NInf, Fin a => signed_inf (flip (sgn a))
  | PInf, PInf | NInf, NInf => PInf
  | PInf, NInf | NInf, PInf => NInf
  end.

(** Division is total, as numpy's is on float64 arrays (a division by zero
    only warns): [0/0] and [inf/inf] are NaN, a nonzero finite value over zero
    is the infinity of its sign.  A finite quotient is exact; the float64
    quotient is rounded. *)
Definition div (x y : fval) : fval :=
  match x, y with
  | NaN, _ | _, NaN => NaN
  | Fin a, Fin b =>
      match sgn b with
      | Eq => signed_inf (sgn a)
      | _ => Fin (a / b)%Qc
      end
  | Fin _, (PInf | NInf) => zero
  | (PInf | NInf), (PInf | NInf) => NaN
  | PInf, Fin b => match sgn b with Lt => NInf | _ => PInf end
  | NInf, Fin b => match sgn b with Lt => PInf | _ => NInf end
  end.

Definition abs (x : fval) : fval :=
  match x with
  | Fin q => match sgn q with Lt => Fin (- q)%Qc | _ => Fin q end
  | PInf | NInf => PInf
  | NaN => NaN
  end.

(** IEEE comparisons: false as soon as one side is NaN. *)
Definition ltb (x y : fval) : bool :=
  match x, y with
  | NaN, _ | _, NaN => false
  | Fin a, Fin b => match (a ?= b)%Qc with Lt => true | _ => false end
  | NInf, (Fin _ | PInf) => true
  | Fin _, PInf => true
  | _, _ => false
  end.

Definition gtb (x y : fval) : bool := ltb y x.

Definition leb (x y : fval) : bool :=
  match x, y with
  | NaN, _ | _, NaN => false
  | Fin a, Fin b => match (a ?= b)%Qc with Gt => false | _ => true end
  | NInf, _ => true
  | _, PInf => true
  | _, _ => false
  end.

(** The order numpy sorts by: the IEEE order, with NaN after everything. *)
Definition sort_leb (x y : fval) : bool :=
  match x, y with
  | _, NaN => true
  | NaN, _ => false
  | _, _ => leb x y
  end.

(** [lo <= x <= hi] for finite bounds: [x] is then finite as well. *)
Definition between (lo hi : Qc) (x : fval) : bool :=
  leb (Fin lo) x && leb x (Fin hi).

(** 2^1022.  Two float64 values of at most this magnitude add without
    overflow, and halving their sum gives a value between them. *)
Definition half_max : Qc := Q2Qc (inject_Z (2 ^ 1022)).

End F.

Import F.

Declare Scope fval_scope.
Delimit Scope fval_scope with F.
Bind Scope fval_scope with fval.
Infix "+" := F.add : fval_scope.
Infix "-" := F.sub : fval_scope.
Infix "*" := F.mul : fval_scope.
Infix "/" := F.div : fval_scope.
Infix ">?" := F.gtb (at level 70, no associativity) : fval_scope.

(** ** Python outcomes *)

(** The exceptions the numpy operations below can raise. *)
Inductive exn : Type :=
| ValueError   (* operands could not be broadcast together / wrong number of values *)
| IndexError.  (* boolean index did not match the indexed array *)

Inductive outcome (A : Type) : Type :=
| Ok (a : A)
| Raise (e : exn).

Arguments Ok {A} a.
Arguments Raise {A} e.

Definition bind {A B : Type} (o : outcome A) (k : A -> outcome B) : outcome B :=
  match o with
  | Ok a => k a
  | Raise e => Raise e
  end.

Notation "x <- o ;; k" := (bind o (fun x => k))
  (at level 61, o at next level, right associativity).

Definition raises {A : Type} (o : outcome A) : Prop := exists e, o = Raise e.

(** ** numpy arrays and the operations the cells use *)

Module Np.

(** A two-dimensional array of shape [(length rows, ncols)], stored by rows.
    For [bits], a row is one image (one distribution) and a column is one
    pixel position across the stack. *)
Record ndarray (A : Type) : Type := Array2 { ncols : nat; rows : list (list A) }.

Definition nrows {A} (a : ndarray A) : nat := length (rows a).

(** Every row of a numpy array has the array's width. *)
Definition wf {A} (a : ndarray A) : Prop :=
  Forall (fun r => length r = ncols a) (rows a).

Definition same_shape {A B} (a : ndarray A) (m : ndarray B) : bool :=
  (nrows a =? nrows m) && (ncols a =? ncols m).

Fixpoint zip_with {A B C} (f : A -> B -> C) (l : list A) (l' : list B) : list C :=
  match l, l' with
  | x :: t, y :: t' => f x y :: zip_with f t t'
  | _, _ => []
  end.

(** [a[:, j]]; [d] stands for an entry that is not there. *)
Definition column {A} (d : A) (j : nat) (a : ndarray A) : list A :=
  map (fun r => nth j r d) (rows a).

(** [a op v] for [a] of shape (N, P) and a one-dimensional [v]: numpy's
    broadcasting of the trailing axis. *)
Definition broadcast (f : fval -> fval -> fval) (a : ndarray fval) (v : list fval)
  : outcome (ndarray fval) :=
  if length v =? ncols a then
    Ok (Array2 (ncols a) (map (fun r => zip_with f r v) (rows a)))
  else if length v =? 1 then
    Ok (Array2 (ncols a) (map (map (fun x => f x (hd NaN v))) (rows a)))
  else if ncols a =? 1 then
    Ok (Array2 (length v) (map (fun r => map (f (hd NaN r)) v) (rows a)))
  else Raise ValueError.

Definition subtract := broadcast F.sub.
Definition divide := broadcast F.div.

(** [a > t] for a scalar [t] *)
Definition greater (a : ndarray fval) (t : fval) : ndarray bool :=
  Array2 (ncols a) (map (map (fun x => (x >? t)%F)) (rows a)).

(** [np.abs(a)] *)
Definition absolute (a : ndarray fval) : ndarray fval :=
  Array2 (ncols a) (map (map F.abs) (rows a)).

(** [a * k] for a scalar [k], on a one-dimensional array *)
Definition scale (v : list fval) (k : fval) : list fval :=
  map (fun x => (x * k)%F) v.

(** *** Reductions *)

Definition sum (l : list fval) : fval := fold_left F.add l zero.

(** [np.mean] of a one-dimensional slice; the mean of an empty slice is
    [0/0], NaN.  Over [F] the total and the quotient are exact. *)
Definition mean (l : list fval) : fval := (sum l / of_nat (length l))%F.

Fixpoint insert (x : fval) (l : list fval) : list fval :=
  match l with
  | [] => [x]
  | y :: t => if sort_leb x y then x :: l else y :: insert x t
  end.

Fixpoint sort (l : list fval) : list fval :=
  match l with
  | [] => []
  | x :: t => insert x (sort t)
  end.

(** [part[index:stop]] *)
Definition slice {A} (start stop : nat) (l : list A) : list A :=
  firstn (stop - start) (skipn start l).

(** [np.median] of a one-dimensional slice: the mean of the middle element
    (odd length) or of the two middle elements (even length) of the ordered
    data, and NaN as soon as the data contain a NaN. *)
Definition median1 (l : list fval) : fval :=
  let part := sort l in
  let sz := length l in
  let index := sz / 2 in
  let rout :=
    if Nat.odd sz then mean (slice index (index + 1) part)
    else mean (slice (index - 1) (index + 1) part) in
  if existsb isnan l then NaN else rout.

(** [np.nanmean] of a one-dimensional slice: NaN entries are replaced by
    zero for the total and left out of the count; when every entry is NaN
    the result is [0/0], NaN (numpy only warns). *)
Definition nanmean1 (l : list fval) : fval :=
  let arr := map (fun x => if isnan x then zero else x) l in
  let cnt := length (filter (fun x => negb (isnan x)) l) in
  (sum arr / of_nat cnt)%F.

(** A reduction along axis 0: one value per column. *)
Definition reduce0 (f : list fval -> fval) (a : ndarray fval) : list fval :=
  map (fun j => f (column NaN j a)) (seq 0 (ncols a)).

(** [np.median(a, axis=0)] *)
Definition median (a : ndarray fval) : list fval := reduce0 median1 a.

(** [np.nanmean(a, axis=0)] *)
Definition nanmean (a : ndarray fval) : list fval := reduce0 nanmean1 a.

(** *** Boolean-mask indexing *)

Fixpoint take_row (r : list fval) (m : list bool) : list fval :=
  match r, m with
  | x :: r', b :: m' => if b then x :: take_row r' m' else take_row r' m'
  | _, _ => []
  end.

Definition count_true (m : ndarray bool) : nat :=
  length (filter (fun b : bool => b) (concat (rows m))).

(** [a[m]]: a fresh one-dimensional copy of the selected entries, in
    row-major order. *)
Definition getitem (a : ndarray fval) (m : ndarray bool) : outcome (list fval) :=
  if same_shape a m then Ok (concat (zip_with take_row (rows a) (rows m)))
  else Raise IndexError.

(** [a[m] = v] for a scalar [v] *)
Definition setitem_scalar (a : ndarray fval) (m : ndarray bool) (v : fval)
  : outcome (ndarray fval) :=
  if same_shape a m then
    Ok (Array2 (ncols a)
          (zip_with (zip_with (fun x (b : bool) => if b then v else x)) (rows a) (rows m)))
  else Raise IndexError.

(** Writes the values [vs], in order, at the selected places of a row;
    returns the new row and the values left. *)
Fixpoint put_row (r : list fval) (m : list bool) (vs : list fval)
  : list fval * list fval :=
  match r, m with
  | x :: r', b :: m' =>
      if b then
        match vs with
        | v :: vs' => let (r'', rest) := put_row r' m' vs' in (v :: r'', rest)
        | [] => let (r'', rest) := put_row r' m' [] in (x :: r'', rest)
        end
      else let (r'', rest) := put_row r' m' vs in (x :: r'', rest)
  | _, _ => ([], vs)
  end.

Fixpoint put_rows (rs : list (list fval)) (ms : list (list bool)) (vs : list fval)
  : list (list fval) :=
  match rs, ms with
  | r :: rs', m :: ms' =>
      let (r', rest) := put_row r m vs in r' :: put_rows rs' ms' rest
  | _, _ => []
  end.

(** [a[m] = vs] for a one-dimensional [vs]: as many values as selected
    places (or a single value, broadcast); anything else is a ValueError. *)
Definition setitem_values (a : ndarray fval) (m : ndarray bool) (vs : list fval)
  : outcome (ndarray fval) :=
  if same_shape a m then
    if length vs =? count_true m then
      Ok (Array2 (ncols a) (put_rows (rows a) (rows m) vs))
    else if length vs =? 1 then setitem_scalar a m (hd NaN vs)
    else Raise ValueError
  else Raise IndexError.

(** *** The other operations of the notebook *)

(** [np.average(a, axis=0)], without weights: the mean of each column. *)
Definition average (a : ndarray fval) : list fval := reduce0 mean a.

(** [r[start:stop] = v] on one row, for bounds that are not negative: the
    entries at the positions [start <= j < stop] that exist are overwritten;
    a slice that reaches past the end of the row is cut there. *)
Fixpoint fill_slice (start stop : nat) (v : fval) (r : list fval) {struct r}
  : list fval :=
  match r with
  | [] => []
  | x :: t =>
      match start, stop with
      | _, 0 => r
      | 0, S stop' => v :: fill_slice 0 stop' v t
      | S start', S stop' => x :: fill_slice start' stop' v t
      end
  end.

Fixpoint update_row (i : nat) (f : list fval -> list fval) (rs : list (list fval))
  : list (list fval) :=
  match rs with
  | [] => []
  | r :: t =>
      match i with
      | 0 => f r :: t
      | S i' => r :: update_row i' f t
      end
  end.

(** [a[i, start:stop] = v] for a scalar [v]: an index [i] past the last row
    is an IndexError. *)
Definition setitem_row_slice (a : ndarray fval) (i start stop : nat) (v : fval)
  : outcome (ndarray fval) :=
  if i <? nrows a then
    Ok (Array2 (ncols a) (update_row i (fill_slice start stop v) (rows a)))
  else Raise IndexError.

End Np.

(** ** astropy.stats.mad_std *)

Module Astropy.

(** The factor that turns the median absolute deviation into an estimate of
    the standard deviation of a Gaussian: 1.4826. *)
Definition mad_factor : fval := of_Q (7413 # 5000).

(** Modelled from the spec: [astropy.stats.mad_std], which the notebook
    imports and whose source is not part of the repository.  The spec's
    RobustScale is "1.4826 x median(|sample - RobustLocation|) across the N
    samples", RobustLocation being the per-pixel median; written here with
    the array operations astropy uses
    ([np.median(np.abs(data - np.median(data, axis=0)), axis=0) * factor]). *)
Definition mad_std (data : Np.ndarray fval) : outcome (list fval) :=
  let data_median := Np.median data in
  d <- Np.subtract data data_median ;;
  let MAD := Np.median (Np.absolute d) in
  Ok (Np.scale MAD mad_factor).

(** The formula of the notebook's prose, [MAD = 1/N sum |x_i - median(x)|],
    for one pixel; kept for comparison with [mad_std]. *)
Definition mean_abs_dev1 (col : list fval) : fval :=
  Np.mean (map (fun x => F.abs (x - Np.median1 col)%F) col).

End Astropy.

(** ** The notebook cells *)

Module Notebook.

Import Np.

(** [median = np.median(bits, axis=0)] *)
Definition median (bits : ndarray fval) : list fval := Np.median bits.

(** [mad_sigma = mad_std(bits, axis=0)] *)
Definition mad_sigma (bits : ndarray fval) : outcome (list fval) :=
  Astropy.mad_std bits.

(** [exclude = (bits - median) / mad_sigma > thresh]; the notebook writes
    the threshold as the literal 10. *)
Definition exclude_at (thresh : fval) (bits : ndarray fval) : outcome (ndarray bool) :=
  let median := median bits in
  mad_sigma <- mad_sigma bits ;;
  d <- subtract bits median ;;
  z <- divide d mad_sigma ;;
  Ok (greater z thresh).

Definition ten : fval := of_Z 10.

Definition exclude (bits : ndarray fval) : outcome (ndarray bool) :=
  exclude_at ten bits.

(** The last cell.  [bits] is one mutable array: the cell overwrites it
    twice, and the array it leaves behind is returned next to
    [clip_combine].

<<
    original_values = bits[exclude]
    bits[exclude] = np.nan
    clip_combine = np.nanmean(bits, axis=0)
    bits[exclude] = original_values
>> *)
Definition clip_cell (bits : ndarray fval) (exclude : ndarray bool)
  : outcome (list fval * ndarray fval) :=
  original_values <- getitem bits exclude ;;
  bits <- setitem_scalar bits exclude NaN ;;
  let clip_combine := nanmean bits in
  bits <- setitem_values bits exclude original_values ;;
  Ok (clip_combine, bits).

(** The cells in sequence, from a stack [bits] to the clipped average and
    the stack as the cells leave it. *)
Definition combine_at (thresh : fval) (bits : ndarray fval)
  : outcome (list fval * ndarray fval) :=
  exclude <- exclude_at thresh bits ;;
  clip_cell bits exclude.

Definition combine (bits : ndarray fval) : outcome (list fval * ndarray fval) :=
  combine_at ten bits.

(** *** The cells before the clipping *)

(** [average = np.average(bits, axis=0)] *)
Definition average (bits : ndarray fval) : list fval := Np.average bits.

Definition bias_level : Z := 1000.

(** [bits[0, start:stop] = v]: the first image is given the value [v] at
    the pixel positions of the slice. *)
Definition inject_at (start stop : nat) (v : fval) (bits : ndarray fval)
  : outcome (ndarray fval) :=
  setitem_row_slice bits 0 start stop v.

(** [bits[0, 10000:10050] = 2 * bias_level] *)
Definition inject (bits : ndarray fval) : outcome (ndarray fval) :=
  inject_at 10000 10050 (of_Z (2 * bias_level)) bits.

(** *** One image *)

(** The row of the mask that belongs to one image [r], from the medians and
    the scales of the stack: [(r - median) / mad_sigma > thresh]. *)
Definition exclude_row (thresh : fval) (median mad_sigma : list fval) (r : list fval)
  : list bool :=
  map (fun z => (z >? thresh)%F) (zip_with F.div (zip_with F.sub r median) mad_sigma).

(** *** One pixel *)

(** The robust scale of one column. *)
Definition sigma1 (col : list fval) : fval :=
  (median1 (map (fun y => F.abs (y - median1 col)%F) col) * Astropy.mad_factor)%F.

(** Signed deviation of a sample [x] of the column [col], in units of the
    column's robust scale. *)
Definition deviation (col : list fval) (x : fval) : fval :=
  ((x - median1 col) / sigma1 col)%F.

(** The mask of one column: the samples whose deviation exceeds the threshold. *)
Definition exclude1 (thresh : fval) (col : list fval) : list bool :=
  map (fun x => (deviation col x >? thresh)%F) col.

(** The clipped average of one column: the samples whose deviation exceeds
    the threshold are left out of the mean. *)
Definition clip1 (thresh : fval) (col : list fval) : fval :=
  nanmean1 (zip_with (fun x (b : bool) => if b then NaN else x) col (exclude1 thresh col)).

End Notebook.

(** ** The cells on float64 values *)

(** The cells above, once more, on the element type [bits] has in the
    notebook: IEEE 754 binary64, with the processor's operations (rounding
    to nearest even, overflow to an infinity, NaN).  The definitions follow
    those of [Np], [Astropy] and [Notebook] line by line; they are there to
    run the cells on stacks where the rounding of a sum or of a quotient
    shows in the result. *)
Module Binary64.

Import Np PrimFloat.
Local Open Scope float_scope.

(** A count, as the float64 numpy divides a total by. *)
Definition of_nat (n : nat) : float := of_uint63 (Uint63.of_Z (Z.of_nat n)).

Definition isnan (x : float) : bool := is_nan x.

Definition gtb (x y : float) : bool := y <? x.

(** The order [np.sort] puts the data in: NaN after every number. *)
Definition sort_leb (x y : float) : bool :=
  if isnan y then true else if isnan x then false else x <=? y.

(** [a op v] for [a] of shape (N, P) and a one-dimensional [v] *)
Definition broadcast (f : float -> float -> float) (a : ndarray float) (v : list float)
  : outcome (ndarray float) :=
  if (length v =? ncols a)%nat then
    Ok (Array2 (ncols a) (map (fun r => zip_with f r v) (rows a)))
  else if (length v =? 1)%nat then
    Ok (Array2 (ncols a) (map (map (fun x => f x (hd nan v))) (rows a)))
  else if (ncols a =? 1)%nat then
    Ok (Array2 (length v) (map (fun r => map (f (hd nan r)) v) (rows a)))
  else Raise ValueError.

Definition subtract := broadcast sub.
Definition divide := broadcast div.

(** [a > t] for a scalar [t] *)
Definition greater (a : ndarray float) (t : float) : ndarray bool :=
  Array2 (ncols a) (map (map (fun x => gtb x t)) (rows a)).

(** [np.abs(a)] *)
Definition absolute (a : ndarray float) : ndarray float :=
  Array2 (ncols a) (map (map abs) (rows a)).

(** [a * k] for a scalar [k], on a one-dimensional array *)
Definition scale (v : list float) (k : float) : list float :=
  map (fun x => x * k) v.

Definition sum (l : list float) : float := fold_left add l 0.

(** [np.mean] of a one-dimensional slice *)
Definition mean (l : list float) : float := sum l / of_nat (length l).

Fixpoint insert (x : float) (l : list float) : list float :=
  match l with
  | [] => [x]
  | y :: t => if sort_leb x y then x :: l else y :: insert x t
  end.

Fixpoint sort (l : list float) : list float :=
  match l with
  | [] => []
  | x :: t => insert x (sort t)
  end.

(** [np.median] of a one-dimensional slice *)
Definition median1 (l : list float) : float :=
  let part := sort l in
  let sz := length l in
  let index := (sz / 2)%nat in
  let rout :=
    if Nat.odd sz then mean (slice index (index + 1) part)
    else mean (slice (index - 1) (index + 1) part) in
  if existsb isnan l then nan else rout.

(** [np.nanmean] of a one-dimensional slice *)
Definition nanmean1 (l : list float) : float :=
  let arr := map (fun x => if isnan x then 0 else x) l in
  let cnt := length (filter (fun x => negb (isnan x)) l) in
  sum arr / of_nat cnt.

(** A reduction along axis 0: one value per column. *)
Definition reduce0 (f : list float -> float) (a : ndarray float) : list float :=
  map (fun j => f (column nan j a)) (seq 0 (ncols a)).

(** [np.median(a, axis=0)] *)
Definition median (a : ndarray float) : list float := reduce0 median1 a.

(** [np.nanmean(a, axis=0)] *)
Definition nanmean (a : ndarray float) : list float := reduce0 nanmean1 a.

(** [np.average(a, axis=0)], without weights *)
Definition average (a : ndarray float) : list float := reduce0 mean a.

Fixpoint take_row (r : list float) (m : list bool) : list float :=
  match r, m with
  | x :: r', b :: m' => if b then x :: take_row r' m' else take_row r' m'
  | _, _ => []
  end.

(** [a[m]] *)
Definition getitem (a : ndarray float) (m : ndarray bool) : outcome (list float) :=
  if same_shape a m then Ok (concat (zip_with take_row (rows a) (rows m)))
  else Raise IndexError.

(** [a[m] = v] for a scalar [v] *)
Definition setitem_scalar (a : ndarray float) (m : ndarray bool) (v : float)
  : outcome (ndarray float) :=
  if same_shape a m then
    Ok (Array2 (ncols a)
          (zip_with (zip_with (fun x (b : bool) => if b then v else x)) (rows a) (rows m)))
  else Raise IndexError.

Fixpoint put_row (r : list float) (m : list bool) (vs : list float)
  : list float * list float :=
  match r, m with
  | x :: r', b :: m' =>
      if b then
        match vs with
        | v :: vs' => let (r'', rest) := put_row r' m' vs' in (v :: r'', rest)
        | [] => let (r'', rest) := put_row r' m' [] in (x :: r'', rest)
        end
      else let (r'', rest) := put_row r' m' vs in (x :: r'', rest)
  | _, _ => ([], vs)
  end.

Fixpoint put_rows (rs : list (list float)) (ms : list (list bool)) (vs : list float)
  : list (list float) :=
  match rs, ms with
  | r :: rs', m :: ms' =>
      let (r', rest) := put_row r m vs in r' :: put_rows rs' ms' rest
  | _, _ => []
  end.

(** [a[m] = vs] for a one-dimensional [vs] *)
Definition setitem_values (a : ndarray float) (m : ndarray bool) (vs : list float)
  : outcome (ndarray float) :=
  if same_shape a m then
    if (length vs =? count_true m)%nat then
      Ok (Array2 (ncols a) (put_rows (rows a) (rows m) vs))
    else if (length vs =? 1)%nat then setitem_scalar a m (hd nan vs)
    else Raise ValueError
  else Raise IndexError.

(** 1.4826, to the nearest float64. *)
Definition mad_factor : float := 0x1.7b8bac710cb29p+0.

(** Modelled from the spec: [astropy.stats.mad_std], as [Astropy.mad_std]
    above:
    [np.median(np.abs(data - np.median(data, axis=0)), axis=0) * factor]. *)
Definition mad_std (data : ndarray float) : outcome (list float) :=
  let data_median := median data in
  d <- subtract data data_median ;;
  let MAD := median (absolute d) in
  Ok (scale MAD mad_factor).

(** [mad_sigma = mad_std(bits, axis=0)] *)
Definition mad_sigma (bits : ndarray float) : outcome (list float) := mad_std bits.

(** [exclude = (bits - median) / mad_sigma > thresh] *)
Definition exclude_at (thresh : float) (bits : ndarray float) : outcome (ndarray bool) :=
  let median := median bits in
  mad_sigma <- mad_sigma bits ;;
  d <- subtract bits median ;;
  z <- divide d mad_sigma ;;
  Ok (greater z thresh).

Definition exclude (bits : ndarray float) : outcome (ndarray bool) :=
  exclude_at 10 bits.

(** The last cell:

<<
    original_values = bits[exclude]
    bits[exclude] = np.nan
    clip_combine = np.nanmean(bits, axis=0)
    bits[exclude] = original_values
>> *)
Definition clip_cell (bits : ndarray float) (exclude : ndarray bool)
  : outcome (list float * ndarray float) :=
  original_values <- getitem bits exclude ;;
  bits <- setitem_scalar bits exclude nan ;;
  let clip_combine := nanmean bits in
  bits <- setitem_values bits exclude original_values ;;
  Ok (clip_combine, bits).

Definition combine_at (thresh : float) (bits : ndarray float)
  : outcome (list float * ndarray float) :=
  exclude <- exclude_at thresh bits ;;
  clip_cell bits exclude.

Definition combine (bits : ndarray float) : outcome (list float * ndarray float) :=
  combine_at 10 bits.

(** The float64 values nearest to 0.1 and the next one above it
    (0.1 and 0.10000000000000002 as Python prints them). *)
Definition tenth : float := 0x1.999999999999ap-4.
Definition above_tenth : float := 0x1.999999999999bp-4.

(** Three images of one pixel, each 0.1. *)
Definition tenths : ndarray float := Array2 1 [[tenth]; [tenth]; [tenth]].

(** Two images at 0.1 and a third at 1e9. *)
Definition tenths_and_outlier : ndarray float :=
  Array2 1 [[tenth]; [tenth]; [1000000000]].

End Binary64.

(** ** Slices of the frames (notebooks 02.00 and the dark-current notebook) *)

Module Frames.

Import Np.

(** A bound [i] of a Python slice on a sequence of length [n]: a negative
    bound counts from the end, and every bound is cut to the sequence. *)
Definition bound (n : nat) (i : Z) : nat :=
  if (i <? 0)%Z then Z.to_nat (Z.max 0 (i + Z.of_nat n))
  else Nat.min (Z.to_nat i) n.

(** The two bounds of [start:stop]; a bound left out is the matching end. *)
Definition span (n : nat) (start stop : option Z) : nat * nat :=
  (match start with Some i => bound n i | None => 0 end,
   match stop with Some i => bound n i | None => n end).

(** [l[start:stop]] *)
Definition py_slice {A} (start stop : option Z) (l : list A) : list A :=
  let (a, b) := span (length l) start stop in slice a b l.

(** [a[:, start:stop]] *)
Definition columns {A} (start stop : option Z) (a : ndarray A) : ndarray A :=
  let (lo, hi) := span (ncols a) start stop in
  Array2 (hi - lo) (map (py_slice start stop) (rows a)).

(** [a.flatten()] *)
Definition flatten {A} (a : ndarray A) : list A := concat (rows a).

(** The pixels of the first histogram of notebook 02.00:
    [data[:, 15:-30].flatten()] *)
Definition interior {A} (data : ndarray A) : list A :=
  flatten (columns (Some 15%Z) (Some (-30)%Z) data).

(** The pixels of its second histogram:
    [np.concatenate((data[:, :15].flatten(), data[:, -30:].flatten()))] *)
Definition edges {A} (data : ndarray A) : list A :=
  flatten (columns None (Some 15%Z) data) ++ flatten (columns (Some (-30)%Z) None data).

(** The overscan region handed to [subtract_overscan]: [d[:, 2055:]] *)
Definition overscan {A} (d : ndarray A) : ndarray A := columns (Some 2055%Z) None d.

(** The part kept by [trim_image]: [new_d[:, :2048]] *)
Definition trimmed {A} (d : ndarray A) : ndarray A := columns None (Some 2048%Z) d.

End Frames.

(** ** Sample stacks *)

Module Samples.

Import Np.

Definition stack (p : nat) (l : list (list Z)) : ndarray fval :=
  Array2 p (map (map of_Z) l).

(** Five one-pixel images, one of them far below the others. *)
Definition low_outlier : ndarray fval := stack 1 [[0]; [100]; [101]; [102]; [103]]%Z.

(** Five one-pixel images, one of them as far above the others. *)
Definition high_outlier : ndarray fval := stack 1 [[202]; [102]; [101]; [100]; [99]]%Z.

(** Three one-pixel images. *)
Definition one_two_three : ndarray fval := stack 1 [[1]; [2]; [3]]%Z.

(** No image at all, for a single pixel position: shape (0, 1). *)
Definition empty_stack : ndarray fval := Array2 1 [].

(** Three two-pixel images that agree at pixel 0. *)
Definition constant_pixel : ndarray fval := stack 2 [[7; 1]; [7; 2]; [7; 3]]%Z.

(** Five one-pixel images, three of them equal: the median absolute
    deviation is zero although two samples differ from the median. *)
Definition mostly_equal : ndarray fval := stack 1 [[0]; [5]; [5]; [5]; [9]]%Z.

(** A single three-pixel image. *)
Definition single_image : ndarray fval := stack 3 [[4; 5; 6]]%Z.

Definition minus_one : fval := of_Z (-1).

(** Five one-pixel images, the first of them with no value (NaN). *)
Definition with_nan : ndarray fval :=
  Array2 1 [[NaN]; [of_Z 1]; [of_Z 1]; [of_Z 1]; [of_Z 99]].

(** Two rows of 45 pixels, numbered. *)
Definition frame_45 : ndarray nat := Array2 45 [seq 0 45; seq 100 45].

(** Two rows of 20 pixels, numbered. *)
Definition frame_20 : ndarray nat := Array2 20 [seq 0 20; seq 100 20].

(** One row of 2060 pixels, numbered. *)
Definition frame_2060 : ndarray nat := Array2 2060 [seq 0 2060].

(** Four images of two pixels that agree at the first pixel. *)
Definition agreeing_stack : ndarray fval :=
  stack 2 [[100; 100]; [100; 101]; [100; 99]; [100; 102]]%Z.

(** Five two-pixel images with samples between 99 and 102. *)
Definition clean_stack : ndarray fval :=
  stack 2 [[100; 100]; [102; 101]; [101; 100]; [100; 99]; [99; 102]]%Z.

End Samples.

Import Np Notebook Samples Frames.

(** * Properties *)

(** ** Lists and columns *)

Section Lists.

Context {A B C : Type}.

Lemma zip_with_length (f : A -> B -> C) l l' :
  length (zip_with f l l') = Nat.min (length l) (length l').
Proof.
  revert l'; induction l as [|x l IH]; intros [|y l']; simpl; auto.
Qed.

Lemma nth_zip_with (f : A -> B -> C) l l' j dA dB dC :
  j < length l -> j < length l' ->
  nth j (zip_with f l l') dC = f (nth j l dA) (nth j l' dB).
Proof.
  revert l l'; induction j as [|j IH]; intros [|x l] [|y l']; simpl; intros; try lia; auto.
  apply IH; lia.
Qed.

Lemma zip_with_repeat_r (f : A -> B -> C) l y n :
  length l = n -> zip_with f l (repeat y n) = map (fun x => f x y) l.
Proof.
  revert n; induction l as [|x l IH]; intros [|n]; simpl; intros; try lia; auto.
  rewrite IH by lia; auto.
Qed.

End Lists.

Lemma map_Forall_ext {A B} (P : A -> Prop) (f g : A -> B) l :
  Forall P l -> (forall x, P x -> f x = g x) -> map f l = map g l.
Proof.
  intros H E; induction H; simpl; auto.
  rewrite E, IHForall; auto.
Qed.

(** Column [j] of an elementwise combination of two arrays. *)
Lemma column_zip2 {A B C} (f : A -> B -> C) dA dB dC j p rs ms :
  Forall (fun r => length r = p) rs ->
  Forall (fun m => length m = p) ms ->
  length rs = length ms -> j < p ->
  map (fun r => nth j r dC) (zip_with (zip_with f) rs ms)
  = zip_with f (map (fun r => nth j r dA) rs) (map (fun m => nth j m dB) ms).
Proof.
  intros Hr; revert ms; induction Hr as [|r rs Hl Hr IH]; intros [|m ms] Hm Hlen Hj;
    simpl in *; try lia; auto.
  inversion Hm; subst.
  rewrite (nth_zip_with f r m dA dB) by lia.
  rewrite IH; auto.
Qed.

Lemma reduce0_length f a : length (reduce0 f a) = ncols a.
Proof. unfold reduce0; now rewrite length_map, length_seq. Qed.

Lemma reduce0_nth f a j :
  j < ncols a -> nth j (reduce0 f a) NaN = f (column NaN j a).
Proof.
  intros Hj; unfold reduce0.
  rewrite (nth_indep _ NaN (f (column NaN 0 a))) by (now rewrite length_map, length_seq).
  rewrite (map_nth (fun j => f (column NaN j a))), seq_nth; auto.
Qed.

Lemma nth_map_in {A B} (g : A -> B) (l : list A) j dA dB :
  j < length l -> nth j (map g l) dB = g (nth j l dA).
Proof.
  intros Hj.
  rewrite (nth_indep _ dB (g dA)) by (now rewrite length_map).
  apply map_nth.
Qed.

(** Column [j] of an array mapped entry by entry. *)
Lemma column_map {A B} (g : A -> B) dA dB j p rs :
  Forall (fun r => length r = p) rs -> j < p ->
  column dB j (Array2 p (map (map g) rs)) = map g (column dA j (Array2 p rs)).
Proof.
  intros Hr Hj; unfold column; simpl; rewrite !map_map.
  apply map_Forall_ext with (1 := Hr); intros r Hl.
  apply nth_map_in; lia.
Qed.

(** Column [j] of an array combined row by row with a one-dimensional one. *)
Lemma column_broadcast (f : fval -> fval -> fval) j p rs v :
  Forall (fun r => length r = p) rs -> length v = p -> j < p ->
  column NaN j (Array2 p (map (fun r => zip_with f r v) rs))
  = map (fun x => f x (nth j v NaN)) (column NaN j (Array2 p rs)).
Proof.
  intros Hr Hv Hj; unfold column; simpl; rewrite !map_map.
  apply map_Forall_ext with (1 := Hr); intros r Hl.
  apply nth_zip_with; lia.
Qed.

Lemma broadcast_ok f a v :
  length v = ncols a ->
  broadcast f a v = Ok (Array2 (ncols a) (map (fun r => zip_with f r v) (rows a))).
Proof. unfold broadcast; intros ->; now rewrite Nat.eqb_refl. Qed.

Lemma broadcast_rows_wf (f : fval -> fval -> fval) p rs v :
  Forall (fun r => length r = p) rs -> length v = p ->
  Forall (fun r => length r = p) (map (fun r => zip_with f r v) rs).
Proof.
  intros Hr Hv; apply Forall_map; revert Hr; apply Forall_impl; intros r Hl.
  rewrite zip_with_length; lia.
Qed.

Lemma map_rows_wf {A B} (g : A -> B) p rs :
  Forall (fun r => length r = p) rs ->
  Forall (fun r => length r = p) (map (map g) rs).
Proof.
  intros Hr; apply Forall_map; revert Hr; apply Forall_impl; intros r Hl.
  now rewrite length_map.
Qed.

(** ** The cells, column by column *)

Lemma median_length a : length (Np.median a) = ncols a.
Proof. apply reduce0_length. Qed.

Lemma mad_std_ok a :
  wf a ->
  exists sig, Astropy.mad_std a = Ok sig /\ length sig = ncols a /\
    forall j, j < ncols a -> nth j sig NaN = sigma1 (column NaN j a).
Proof.
  intros Hwf; destruct a as [p rs]; unfold wf in Hwf; simpl in Hwf.
  assert (Hmed : length (Np.median (Array2 p rs)) = p) by apply median_length.
  unfold Astropy.mad_std, subtract.
  rewrite broadcast_ok by exact Hmed; simpl.
  eexists; split; [reflexivity|]; split.
  - unfold scale; rewrite length_map; apply median_length.
  - intros j Hj; simpl in Hj. unfold scale.
    rewrite (nth_map_in _ _ NaN) by (now rewrite median_length).
    unfold Np.median at 1; rewrite reduce0_nth by exact Hj.
    unfold absolute; simpl.
    rewrite (column_map F.abs NaN NaN) by auto using broadcast_rows_wf.
    rewrite column_broadcast by auto.
    unfold Np.median; rewrite reduce0_nth by exact Hj.
    rewrite map_map; reflexivity.
Qed.

Lemma exclude_at_ok thresh bits :
  wf bits ->
  exists m, exclude_at thresh bits = Ok m /\ wf m /\
    ncols m = ncols bits /\ nrows m = nrows bits /\
    forall j, j < ncols bits ->
      column false j m = exclude1 thresh (column NaN j bits).
Proof.
  intros Hwf; unfold exclude_at, mad_sigma.
  destruct (mad_std_ok Hwf) as (sig & -> & Hlen & Hsig); simpl.
  destruct bits as [p rs]; unfold wf in Hwf; simpl in *.
  assert (Hmed : length (median (Array2 p rs)) = p) by apply median_length.
  unfold subtract, divide.
  rewrite broadcast_ok by exact Hmed; simpl.
  rewrite broadcast_ok by (simpl; exact Hlen); simpl.
  eexists; split; [reflexivity|].
  assert (Hd : Forall (fun r => length r = p)
                 (map (fun r => zip_with F.sub r (median (Array2 p rs))) rs))
    by (apply broadcast_rows_wf; auto).
  assert (Hz : Forall (fun r => length r = p)
                 (map (fun r => zip_with F.div r sig)
                    (map (fun r => zip_with F.sub r (median (Array2 p rs))) rs)))
    by (apply broadcast_rows_wf; auto).
  repeat split.
  - unfold wf, greater; simpl; now apply map_rows_wf.
  - unfold nrows, greater; simpl; now rewrite !length_map.
  - intros j Hj; unfold greater; simpl.
    rewrite (column_map _ NaN false) by auto.
    rewrite column_broadcast by auto.
    rewrite column_broadcast by auto.
    rewrite map_map, Hsig by exact Hj.
    unfold median, Np.median; rewrite reduce0_nth by exact Hj.
    rewrite map_map; reflexivity.
Qed.

(** ** Masking and restoring *)

Section Restore.

Variable v : fval.

Let sel (x : fval) (b : bool) : fval := if b then v else x.

Lemma put_row_take r m rest :
  length r = length m ->
  put_row (zip_with sel r m) m (take_row r m ++ rest) = (r, rest).
Proof.
  revert m; induction r as [|x r IH]; intros [|b m] Hl; simpl in *; try lia; auto.
  destruct b; simpl; rewrite IH by lia; reflexivity.
Qed.

Lemma put_rows_take p rs ms rest :
  Forall (fun r => length r = p) rs ->
  Forall (fun m => length m = p) ms ->
  length rs = length ms ->
  put_rows (zip_with (zip_with sel) rs ms) ms (concat (zip_with take_row rs ms) ++ rest)
  = rs.
Proof.
  intros Hr; revert ms rest; induction Hr as [|r rs Hl Hr IH];
    intros [|m ms] rest Hm Hlen; simpl in *; try lia; auto.
  inversion Hm; subst.
  rewrite <- app_assoc, put_row_take by lia.
  rewrite IH; auto.
Qed.

Lemma take_row_length r (m : list bool) :
  length r = length m ->
  length (take_row r m) = length (filter (fun b : bool => b) m).
Proof.
  revert m; induction r as [|x r IH]; intros [|b m] Hl; simpl in *; try lia; auto.
  destruct b; simpl; rewrite IH by lia; reflexivity.
Qed.

Lemma getitem_length p rs (ms : list (list bool)) :
  Forall (fun r => length r = p) rs ->
  Forall (fun m => length m = p) ms ->
  length rs = length ms ->
  length (concat (zip_with take_row rs ms))
  = length (filter (fun b : bool => b) (concat ms)).
Proof.
  intros Hr; revert ms; induction Hr as [|r rs Hl Hr IH];
    intros [|m ms] Hm Hlen; simpl in *; try lia; auto.
  inversion Hm; subst.
  rewrite filter_app, !length_app, take_row_length by lia.
  rewrite IH; auto.
Qed.

End Restore.

(** The last cell on a mask of the stack's shape: it returns normally, the
    clipped average is the NaN-aware mean of the masked stack, and the stack
    is left as it was found. *)
Lemma clip_cell_ok bits (m : ndarray bool) :
  wf bits -> wf m -> ncols m = ncols bits -> nrows m = nrows bits ->
  clip_cell bits m
  = Ok (nanmean (Array2 (ncols bits)
                   (zip_with (zip_with (fun x (b : bool) => if b then NaN else x))
                      (rows bits) (rows m))),
        bits).
Proof.
  destruct bits as [p rs], m as [q ms]; unfold wf, nrows; simpl.
  intros Hr Hm -> Hlen.
  unfold clip_cell, getitem, setitem_scalar, setitem_values, same_shape, nrows; simpl.
  rewrite Hlen, !Nat.eqb_refl; simpl.
  rewrite zip_with_length, Hlen, Nat.min_id, !Nat.eqb_refl; simpl.
  unfold count_true; simpl.
  rewrite (getitem_length Hr Hm) by lia.
  rewrite Nat.eqb_refl.
  rewrite <- (app_nil_r (concat (zip_with take_row rs ms))).
  rewrite (put_rows_take NaN [] Hr Hm) by lia.
  reflexivity.
Qed.

(** The whole sequence of cells on a stack: it returns normally, leaves the
    stack as it was, and its value at pixel [j] is the clipped average of
    column [j]. *)
Lemma combine_at_ok thresh bits :
  wf bits ->
  exists cc, combine_at thresh bits = Ok (cc, bits) /\ length cc = ncols bits /\
    forall j, j < ncols bits -> nth j cc NaN = clip1 thresh (column NaN j bits).
Proof.
  intros Hwf; unfold combine_at.
  destruct (exclude_at_ok thresh Hwf) as (m & -> & Hm & Hc & Hn & Hcol).
  cbn [bind]; rewrite (clip_cell_ok Hwf Hm Hc Hn).
  eexists; split; [reflexivity|]; split.
  - unfold nanmean; now rewrite reduce0_length.
  - intros j Hj. unfold nanmean; rewrite reduce0_nth by exact Hj.
    unfold clip1; rewrite <- Hcol by exact Hj.
    f_equal. unfold column at 1; simpl.
    rewrite (column_zip2 _ NaN false) with (p := ncols bits); auto.
    now rewrite <- Hc.
Qed.

(** ** Arithmetic of samples *)

Lemma gtb_nan_l t : (NaN >? t)%F = false.
Proof. now destruct t. Qed.

Lemma div_nan_l y : (NaN / y)%F = NaN.
Proof. now destruct y. Qed.

Lemma sub_self_fin c : (Fin c - Fin c)%F = zero.
Proof.
  unfold zero, of_Z, of_Q; simpl; f_equal.
  unfold Qcminus; rewrite Qcplus_opp_r; now apply Qc_is_canon.
Qed.

Lemma abs_zero : F.abs zero = zero.
Proof. reflexivity. Qed.

Lemma mul_zero_factor : (zero * Astropy.mad_factor)%F = zero.
Proof.
  unfold zero, Astropy.mad_factor, of_Z, of_Q; simpl; f_equal.
  now apply Qc_is_canon.
Qed.

Lemma nQ_S n : nQ (S n) = (nQ n + 1)%Qc.
Proof.
  apply Qc_is_canon; unfold nQ, Qcplus; cbn [this Q2Qc].
  rewrite !Qred_correct, Nat2Z.inj_succ, <- Z.add_1_r, inject_Z_plus.
  reflexivity.
Qed.

Lemma nQ_pos n : sgn (nQ (S n)) = Gt.
Proof.
  unfold sgn; apply Qcgt_alt; unfold nQ; cbn [this Q2Qc].
  rewrite !Qred_correct. unfold Qlt; simpl. lia.
Qed.

Lemma nQ_nonzero n : nQ (S n) <> Q2Qc 0.
Proof.
  intros H. pose proof (nQ_pos n) as Hp. rewrite H in Hp. discriminate.
Qed.


(** ** Constant columns *)

(* In the exact arithmetic of [F] the mean of equal samples is the sample. *)

Lemma sum_repeat_fin c n a :
  fold_left F.add (repeat (Fin c) n) (Fin a) = Fin (a + nQ n * c)%Qc.
Proof.
  revert a; induction n as [|n IH]; intros a; simpl.
  - f_equal. change (nQ 0) with (Q2Qc 0). ring.
  - rewrite IH, nQ_S. f_equal. ring.
Qed.

Lemma sum_repeat_pinf n : fold_left F.add (repeat PInf n) PInf = PInf.
Proof. induction n; simpl; auto. Qed.

Lemma sum_repeat_ninf n : fold_left F.add (repeat NInf n) NInf = NInf.
Proof. induction n; simpl; auto. Qed.

Lemma sum_repeat_nan n : fold_left F.add (repeat NaN n) NaN = NaN.
Proof. induction n; simpl; auto. Qed.

Lemma sum_repeat_zero n : sum (repeat zero n) = zero.
Proof.
  unfold sum, zero, of_Z, of_Q. rewrite sum_repeat_fin.
  f_equal. change (Q2Qc (inject_Z 0)) with (Q2Qc 0). ring.
Qed.

(** The mean of [S n] copies of a value is that value. *)
Lemma mean_repeat x n : mean (repeat x (S n)) = x.
Proof.
  unfold mean, sum; rewrite repeat_length; simpl.
  destruct x as [c| | |]; simpl.
  - unfold zero, of_Z, of_Q. change (Q2Qc (inject_Z 0)) with (Q2Qc 0).
    rewrite sum_repeat_fin.
    unfold of_nat, F.div. rewrite nQ_pos. f_equal.
    replace (Q2Qc 0 + c + nQ n * c)%Qc with (c * nQ (S n))%Qc.
    + apply Qcdiv_mult_l, nQ_nonzero.
    + rewrite nQ_S. ring.
  - rewrite sum_repeat_pinf. unfold of_nat, F.div. now rewrite nQ_pos.
  - rewrite sum_repeat_ninf. unfold of_nat, F.div. now rewrite nQ_pos.
  - now rewrite sum_repeat_nan.
Qed.

Lemma sort_leb_refl x : sort_leb x x = true.
Proof.
  destruct x as [c| | |]; simpl; auto.
  now rewrite (proj1 (Qceq_alt c c) eq_refl).
Qed.

Lemma sort_repeat x n : sort (repeat x n) = repeat x n.
Proof.
  induction n as [|n IH]; simpl; auto.
  rewrite IH. destruct n; simpl; auto.
  now rewrite sort_leb_refl.
Qed.

Lemma skipn_repeat' {A} (x : A) k n : skipn k (repeat x n) = repeat x (n - k).
Proof.
  revert n; induction k as [|k IH]; intros [|n]; simpl; auto.
Qed.

Lemma firstn_repeat' {A} (x : A) k n : k <= n -> firstn k (repeat x n) = repeat x k.
Proof.
  revert n; induction k as [|k IH]; intros [|n] H; simpl; auto; try lia.
  rewrite IH by lia; auto.
Qed.

Lemma slice_repeat {A} (x : A) start stop n :
  stop <= n -> slice start stop (repeat x n) = repeat x (stop - start).
Proof.
  intros H; unfold slice.
  rewrite skipn_repeat', firstn_repeat' by lia. reflexivity.
Qed.

Lemma existsb_isnan_repeat x n :
  existsb isnan (repeat x (S n)) = isnan x.
Proof.
  induction n as [|n IH]; simpl in *.
  - now rewrite orb_false_r.
  - rewrite IH. now destruct (isnan x).
Qed.

(** The median of [S n] copies of a value is that value. *)
Lemma median1_repeat x n : median1 (repeat x (S n)) = x.
Proof.
  unfold median1. rewrite existsb_isnan_repeat, sort_repeat, repeat_length.
  destruct (isnan x) eqn:Hx; [now destruct x|].
  pose proof (Nat.div_mod_eq (S n) 2) as Hd.
  pose proof (Nat.mod_upper_bound (S n) 2 ltac:(lia)) as Hm.
  destruct (Nat.odd (S n)) eqn:Ho.
  - rewrite slice_repeat by lia.
    replace (S n / 2 + 1 - S n / 2) with 1 by lia. apply mean_repeat.
  - assert (He : S n mod 2 = 0).
    { rewrite <- Nat.negb_even in Ho. apply negb_false_iff, Nat.even_spec in Ho.
      destruct Ho as [k Hk]. rewrite Hk, Nat.mul_comm. apply Nat.Div0.mod_mul. }
    rewrite slice_repeat by lia.
    replace (S n / 2 + 1 - (S n / 2 - 1)) with 2 by lia. apply mean_repeat.
Qed.

(** At a pixel where all the samples are one finite value the robust scale
    is zero. *)
Lemma sigma1_const c n : sigma1 (repeat (Fin c) (S n)) = zero.
Proof.
  unfold sigma1. rewrite median1_repeat, map_repeat, sub_self_fin, abs_zero.
  rewrite median1_repeat. apply mul_zero_factor.
Qed.

(** The deviation of each of [S n] equal samples is [0/0], NaN. *)
Lemma deviation_const x n : deviation (repeat x (S n)) x = NaN.
Proof.
  unfold deviation. rewrite median1_repeat.
  destruct x as [c| | |].
  - now rewrite sigma1_const, sub_self_fin.
  - apply div_nan_l.
  - apply div_nan_l.
  - apply div_nan_l.
Qed.

Lemma exclude1_const thresh x n :
  exclude1 thresh (repeat x (S n)) = repeat false (S n).
Proof.
  unfold exclude1. rewrite map_repeat, deviation_const, gtb_nan_l. reflexivity.
Qed.

Lemma filter_repeat_true {A} (f : A -> bool) x n :
  f x = true -> filter f (repeat x n) = repeat x n.
Proof. intros H; induction n; simpl; auto. now rewrite H, IHn. Qed.

Lemma filter_repeat_false {A} (f : A -> bool) x n :
  f x = false -> filter f (repeat x n) = [].
Proof. intros H; induction n; simpl; auto. now rewrite H. Qed.

(** The NaN-aware mean of a column entirely NaN is NaN. *)
Lemma nanmean1_all_nan n : nanmean1 (repeat NaN n) = NaN.
Proof.
  unfold nanmean1. rewrite map_repeat; simpl.
  rewrite sum_repeat_zero, filter_repeat_false by reflexivity. reflexivity.
Qed.

Lemma nanmean1_repeat x n : nanmean1 (repeat x (S n)) = x.
Proof.
  destruct (isnan x) eqn:Hx.
  - destruct x; try discriminate. apply nanmean1_all_nan.
  - unfold nanmean1. rewrite map_repeat, Hx, filter_repeat_true by now rewrite Hx.
    apply mean_repeat.
Qed.

(** The clipped average of [S n] equal samples is their common value. *)
Lemma clip1_const thresh x n : clip1 thresh (repeat x (S n)) = x.
Proof.
  unfold clip1. rewrite exclude1_const, zip_with_repeat_r by apply repeat_length.
  rewrite map_id. apply nanmean1_repeat.
Qed.

(** ** Order on the samples *)

Lemma ltb_fin a b : F.ltb (Fin a) (Fin b) = true <-> (a < b)%Qc.
Proof.
  simpl; rewrite Qclt_alt. destruct (a ?= b)%Qc; split; congruence.
Qed.

Lemma leb_fin a b : F.leb (Fin a) (Fin b) = true <-> (a <= b)%Qc.
Proof.
  simpl; rewrite Qcle_alt. destruct (a ?= b)%Qc; split; congruence.
Qed.

Lemma Qcopp_0 : (- 0)%Qc = 0%Qc.
Proof. now apply Qc_is_canon. Qed.

Lemma zero_leb_fin b : F.leb zero (Fin b) = true <-> (0 <= b)%Qc.
Proof. unfold zero, of_Z, of_Q. apply leb_fin. Qed.

(** A deviation below minus a non-negative threshold does not exceed the
    threshold. *)
Lemma below_low_side_not_above d t :
  F.leb zero t = true -> F.ltb d (F.neg t) = true -> (d >? t)%F = false.
Proof.
  intros Ht Hd. destruct t as [b| | |]; try discriminate;
    destruct d as [a| | |]; try discriminate; try reflexivity.
  apply zero_leb_fin in Ht. simpl F.neg in Hd. apply ltb_fin in Hd.
  unfold F.gtb. apply not_true_is_false. rewrite ltb_fin. intros Hba.
  apply Qcopp_le_compat in Ht. rewrite Qcopp_0 in Ht.
  apply (Qclt_not_le _ _ Hba).
  apply Qclt_le_weak.
  apply Qclt_le_trans with (- b)%Qc; [exact Hd|].
  apply Qcle_trans with 0%Qc; [exact Ht|].
  apply Qcopp_le_compat in Ht. rewrite Qcopp_0, Qcopp_involutive in Ht. exact Ht.
Qed.


Ltac qc_to_q :=
  unfold Qcle, Qclt, Qcdiv, Qcminus, Qcplus, Qcopp, Qcmult, Qcinv in *;
  cbn [this Q2Qc] in *; rewrite ?Qred_correct in *.

Lemma Qc_add_nonneg (a b : Qc) : (0 <= a -> 0 <= b -> 0 <= a + b)%Qc.
Proof. intros. qc_to_q. lra. Qed.

Lemma Qc_opp_nonneg (a : Qc) : (a < 0 -> 0 <= - a)%Qc.
Proof. intros. qc_to_q. lra. Qed.

Lemma Qc_sub_nonpos (a m : Qc) : (a <= m -> a - m <= 0)%Qc.
Proof. intros. qc_to_q. lra. Qed.

Lemma Qc_div_nonpos (a b : Qc) : (a <= 0 -> 0 < b -> a / b <= 0)%Qc.
Proof.
  intros. qc_to_q.
  assert (0 < / b)%Q by now apply Qinv_lt_0_compat.
  nra.
Qed.

Lemma Qc_div_nonneg (a b : Qc) : (0 <= a -> 0 < b -> 0 <= a / b)%Qc.
Proof.
  intros. qc_to_q.
  assert (0 < / b)%Q by now apply Qinv_lt_0_compat.
  nra.
Qed.

Lemma Qc_mul_nonneg (a b : Qc) : (0 <= a -> 0 < b -> 0 <= a * b)%Qc.
Proof. intros. qc_to_q. nra. Qed.

Lemma Qc_le_div (h A n : Qc) : (0 < n -> n * h <= A -> h <= A / n)%Qc.
Proof.
  intros. qc_to_q.
  assert (Hi : (0 < / n)%Q) by now apply Qinv_lt_0_compat.
  assert (He : (h == (n * h) * / n)%Q) by (field; lra).
  rewrite He. apply Qmult_le_compat_r; [assumption | lra].
Qed.

Lemma Qc_count_step (k h A a : Qc) :
  (k * h <= A -> h <= a -> (k + 1) * h <= A + a)%Qc.
Proof. intros. qc_to_q. lra. Qed.

Lemma sgn_Lt q : sgn q = Lt <-> (q < 0)%Qc.
Proof. unfold sgn. symmetry. apply Qclt_alt. Qed.

Lemma sgn_Gt q : sgn q = Gt <-> (0 < q)%Qc.
Proof. unfold sgn. symmetry. apply Qcgt_alt. Qed.

Lemma Qc_not_lt_iff (a b : Qc) : ~ (a < b)%Qc <-> (b <= a)%Qc.
Proof.
  split.
  - apply Qcnot_lt_le.
  - intros H H'. exact (Qcle_not_lt _ _ H H').
Qed.

Lemma sgn_nonneg q : sgn q <> Lt <-> (0 <= q)%Qc.
Proof. rewrite sgn_Lt. apply Qc_not_lt_iff. Qed.

Lemma sgn_nonpos q : sgn q <> Gt <-> (q <= 0)%Qc.
Proof. rewrite sgn_Gt. apply Qc_not_lt_iff. Qed.

(** [x] is not negative: a finite value at least zero, [+inf], or NaN. *)
Lemma not_neg_fin a : F.ltb (Fin a) zero = false <-> (0 <= a)%Qc.
Proof.
  unfold zero, of_Z, of_Q. rewrite <- not_true_iff_false, ltb_fin.
  apply Qc_not_lt_iff.
Qed.

(** [x] is not positive: a finite value at most zero, [-inf], or NaN. *)
Lemma not_pos_fin a : F.ltb zero (Fin a) = false <-> (a <= 0)%Qc.
Proof.
  unfold zero, of_Z, of_Q. rewrite <- not_true_iff_false, ltb_fin.
  apply Qc_not_lt_iff.
Qed.

Lemma abs_not_neg x : F.ltb (F.abs x) zero = false.
Proof.
  destruct x as [q| | |]; try reflexivity.
  unfold F.abs. destruct (sgn q) eqn:E; apply not_neg_fin.
  - apply sgn_nonneg. congruence.
  - apply Qc_opp_nonneg, sgn_Lt, E.
  - apply sgn_nonneg. congruence.
Qed.

Lemma add_not_neg x y :
  F.ltb x zero = false -> F.ltb y zero = false -> F.ltb (x + y)%F zero = false.
Proof.
  destruct x as [a| | |], y as [b| | |]; try discriminate; try reflexivity.
  intros Ha Hb. apply not_neg_fin in Ha, Hb.
  simpl F.add. apply not_neg_fin. now apply Qc_add_nonneg.
Qed.

Lemma sum_not_neg l acc :
  Forall (fun y => F.ltb y zero = false) l -> F.ltb acc zero = false ->
  F.ltb (fold_left F.add l acc) zero = false.
Proof.
  intros H; revert acc; induction H as [|y l Hy Hl IH]; intros acc Hacc; simpl; auto.
  apply IH. now apply add_not_neg.
Qed.

Lemma div_count_not_neg x n :
  F.ltb x zero = false -> F.ltb (x / of_nat n)%F zero = false.
Proof.
  destruct x as [a| | |]; try discriminate; try reflexivity; unfold of_nat, F.div.
  - rewrite not_neg_fin; intros Ha. destruct n as [|n].
    + replace (sgn (nQ 0)) with Eq by reflexivity.
      destruct (sgn a) eqn:E; try reflexivity.
      apply sgn_nonneg in Ha. congruence.
    + rewrite nQ_pos. apply not_neg_fin, Qc_div_nonneg; auto.
      apply sgn_Gt, nQ_pos.
  - intros _. destruct (sgn (nQ n)) eqn:E; try reflexivity.
    destruct n; [discriminate | rewrite nQ_pos in E; discriminate].
Qed.

Lemma mean_not_neg l :
  Forall (fun y => F.ltb y zero = false) l -> F.ltb (mean l) zero = false.
Proof.
  intros H. unfold mean, sum. apply div_count_not_neg, sum_not_neg; auto.
Qed.

(** ** The ordered data hold the same samples *)

Lemma In_insert x y l : In y (insert x l) <-> y = x \/ In y l.
Proof.
  induction l as [|z l IH]; simpl.
  - intuition.
  - destruct (sort_leb x z); simpl; rewrite ?IH; intuition.
Qed.

Lemma In_sort y l : In y (sort l) <-> In y l.
Proof.
  induction l as [|x l IH]; simpl; [tauto|].
  rewrite In_insert, IH. intuition.
Qed.

Lemma In_firstn {A} (x : A) k l : In x (firstn k l) -> In x l.
Proof.
  revert l; induction k as [|k IH]; intros [|y l]; simpl; try tauto.
  intros [H|H]; auto.
Qed.

Lemma In_skipn {A} (x : A) k l : In x (skipn k l) -> In x l.
Proof.
  revert l; induction k as [|k IH]; intros [|y l]; simpl; try tauto.
  intros H; auto.
Qed.

Lemma In_slice {A} (x : A) start stop l : In x (slice start stop l) -> In x l.
Proof.
  unfold slice. intros H. now apply In_firstn, In_skipn in H.
Qed.

Lemma existsb_isnan_false l :
  existsb isnan l = false <-> Forall (fun y => isnan y = false) l.
Proof.
  induction l as [|x l IH]; simpl.
  - split; auto.
  - rewrite orb_false_iff, IH. split.
    + intros [? ?]; auto.
    + intros H; inversion H; auto.
Qed.

(** The median is the mean of some of the samples, or NaN. *)
Lemma median1_cases l :
  median1 l = NaN \/
  exists s, median1 l = mean s /\ (forall y, In y s -> In y l) /\
            Forall (fun y => isnan y = false) l.
Proof.
  unfold median1. destruct (existsb isnan l) eqn:E; [now left|right].
  apply existsb_isnan_false in E.
  destruct (Nat.odd (length l)); eexists; (split; [reflexivity|]); split; auto;
    intros y Hy; apply In_slice in Hy; now apply In_sort.
Qed.

(** The median of values none of which is negative is not negative. *)
Lemma median1_not_neg l :
  Forall (fun y => F.ltb y zero = false) l -> F.ltb (median1 l) zero = false.
Proof.
  intros H. destruct (median1_cases l) as [-> | (s & -> & Hs & _)]; [reflexivity|].
  apply mean_not_neg, Forall_forall. intros y Hy.
  rewrite Forall_forall in H. auto.
Qed.

Lemma mul_factor_not_neg x :
  F.ltb x zero = false -> F.ltb (x * Astropy.mad_factor)%F zero = false.
Proof.
  destruct x as [a| | |]; try discriminate; try reflexivity.
  intros Ha. apply not_neg_fin in Ha.
  unfold Astropy.mad_factor, of_Q. simpl F.mul.
  apply not_neg_fin, Qc_mul_nonneg; auto. now apply Qclt_alt.
Qed.

(** The robust scale is never negative: it is a finite value at least
    zero, [+inf], or NaN. *)
Lemma sigma1_not_neg col : F.ltb (sigma1 col) zero = false.
Proof.
  unfold sigma1. apply mul_factor_not_neg, median1_not_neg, Forall_forall.
  intros y Hy. apply in_map_iff in Hy as (x & <- & _). apply abs_not_neg.
Qed.

(** ** Samples at or below the median *)

Lemma sub_not_pos x m : F.leb x m = true -> F.ltb zero (x - m)%F = false.
Proof.
  destruct x as [a| | |], m as [b| | |]; try discriminate; try reflexivity.
  intros H. apply leb_fin in H. simpl F.sub.
  now apply not_pos_fin, Qc_sub_nonpos.
Qed.

Lemma div_not_pos d s :
  F.ltb zero d = false -> F.ltb s zero = false -> F.ltb zero (d / s)%F = false.
Proof.
  destruct d as [a| | |], s as [b| | |]; try discriminate; try reflexivity.
  - intros Ha Hb. apply not_pos_fin in Ha. apply not_neg_fin in Hb.
    unfold F.div. destruct (sgn b) eqn:E.
    + destruct (sgn a) eqn:Ea; try reflexivity.
      apply sgn_nonpos in Ha. congruence.
    + apply sgn_nonneg in Hb. congruence.
    + apply not_pos_fin, Qc_div_nonpos; auto. now apply sgn_Gt.
  - intros _ Hb. apply not_neg_fin in Hb. unfold F.div.
    destruct (sgn b) eqn:E; try reflexivity.
    apply sgn_nonneg in Hb. congruence.
Qed.

Lemma not_pos_not_above d t :
  F.ltb zero d = false -> F.leb zero t = true -> (d >? t)%F = false.
Proof.
  destruct d as [a| | |], t as [b| | |]; try discriminate; try reflexivity.
  intros Ha Hb. apply not_pos_fin in Ha. apply zero_leb_fin in Hb.
  unfold F.gtb. apply not_true_is_false. rewrite ltb_fin. apply Qc_not_lt_iff.
  now apply Qcle_trans with 0%Qc.
Qed.

(** A sample at or below the median of its column is never excluded, for
    any threshold that is not negative. *)
Lemma at_or_below_median_kept thresh col x :
  F.leb zero thresh = true -> F.leb x (median1 col) = true ->
  (deviation col x >? thresh)%F = false.
Proof.
  intros Ht Hx. apply not_pos_not_above; auto.
  unfold deviation. apply div_not_pos.
  - now apply sub_not_pos.
  - apply sigma1_not_neg.
Qed.

Lemma nan_median_kept thresh col x :
  median1 col = NaN -> (deviation col x >? thresh)%F = false.
Proof.
  intros H. unfold deviation. rewrite H.
  replace (x - NaN)%F with NaN by now destruct x.
  now rewrite div_nan_l, gtb_nan_l.
Qed.

(** ** The smallest sample *)

Lemma sort_leb_total x y : sort_leb x y = false -> sort_leb y x = true.
Proof.
  destruct x as [a| | |], y as [b| | |]; try discriminate; try reflexivity.
  unfold sort_leb. rewrite <- not_true_iff_false, !leb_fin.
  intros H. apply Qclt_le_weak. now apply Qcnot_le_lt.
Qed.

Lemma sort_leb_trans x y z :
  sort_leb x y = true -> sort_leb y z = true -> sort_leb x z = true.
Proof.
  destruct x as [a| | |], y as [b| | |], z as [c| | |];
    try discriminate; try reflexivity.
  unfold sort_leb. rewrite !leb_fin. apply Qcle_trans.
Qed.

(** The first of the ordered samples is at or below each of them. *)
Lemma insert_min x l :
  match l with
  | [] => True
  | h :: _ => Forall (fun y => sort_leb h y = true) l
  end ->
  match insert x l with
  | [] => False
  | h :: _ => Forall (fun y => sort_leb h y = true) (insert x l)
  end.
Proof.
  destruct l as [|z t]; simpl.
  - intros _. constructor; [apply sort_leb_refl | constructor].
  - intros H. destruct (sort_leb x z) eqn:E.
    + constructor; [apply sort_leb_refl|].
      revert H. apply Forall_impl. intros y Hy.
      now apply sort_leb_trans with z.
    + constructor; [apply sort_leb_refl|].
      apply Forall_forall. intros y Hy. apply In_insert in Hy as [-> | Hy].
      * now apply sort_leb_total.
      * inversion H as [|? ? _ Ht]; subst. rewrite Forall_forall in Ht. auto.
Qed.

Lemma sort_min l :
  match sort l with
  | [] => l = []
  | h :: _ => Forall (fun y => sort_leb h y = true) (sort l)
  end.
Proof.
  induction l as [|x l IH]; simpl; [reflexivity|].
  pose proof (@insert_min x (sort l)) as H.
  destruct (sort l) as [|h t] eqn:E.
  - simpl. constructor; [apply sort_leb_refl | constructor].
  - specialize (H IH). destruct (insert x (h :: t)); [contradiction | exact H].
Qed.

(** A column that is not empty has a sample at or below all the others. *)
Lemma smallest_sample col :
  col <> [] ->
  exists h, In h col /\ forall y, In y col -> sort_leb h y = true.
Proof.
  intros Hne. pose proof (sort_min col) as H.
  destruct (sort col) as [|h t] eqn:E; [contradiction|].
  exists h; split.
  - apply In_sort. rewrite E. now left.
  - intros y Hy. apply In_sort in Hy. rewrite E in Hy.
    rewrite Forall_forall in H. auto.
Qed.

Lemma sort_leb_leb x y :
  isnan x = false -> isnan y = false -> sort_leb x y = true -> F.leb x y = true.
Proof. destruct x, y; try discriminate; auto. Qed.

(** ** The mean is at least the smallest sample *)

Lemma sum_lower_bound c s : forall acc k,
  (forall e, In e s -> F.leb (Fin c) e = true) ->
  (acc = PInf \/ exists A, acc = Fin A /\ (nQ k * c <= A)%Qc) ->
  fold_left F.add s acc = PInf \/
  exists A, fold_left F.add s acc = Fin A /\ (nQ (k + length s) * c <= A)%Qc.
Proof.
  induction s as [|e s IH]; intros acc k Hs Hacc; simpl.
  - now rewrite Nat.add_0_r.
  - rewrite Nat.add_succ_r, <- Nat.add_succ_l. apply IH.
    + intros e' He'. apply Hs. now right.
    + specialize (Hs e (or_introl eq_refl)).
      destruct Hacc as [-> | (A & -> & HA)].
      * left. destruct e; try discriminate; reflexivity.
      * destruct e as [a| | |]; try discriminate; [right | now left].
        exists (A + a)%Qc; split; [reflexivity|].
        rewrite nQ_S. apply Qc_count_step; auto. now apply leb_fin.
Qed.

Lemma mean_lower_bound h s :
  (forall e, In e s -> F.leb h e = true) ->
  F.leb h (mean s) = true \/ mean s = NaN.
Proof.
  intros Hs. destruct s as [|e0 s']; [now right|].
  set (s := e0 :: s') in *.
  destruct h as [c| | |].
  - destruct (@sum_lower_bound c s zero 0 Hs) as [H | (A & H & HA)].
    + right. exists 0%Qc. split; [reflexivity|].
      change (nQ 0) with 0%Qc. rewrite Qcmult_0_l. apply Qcle_refl.
    + left. unfold mean, sum. rewrite H. subst s; simpl length.
      unfold of_nat, F.div. now rewrite nQ_pos.
    + left. unfold mean, sum. rewrite H. subst s; simpl length.
      unfold of_nat, F.div. rewrite nQ_pos. apply leb_fin, Qc_le_div; auto.
      apply sgn_Gt, nQ_pos.
  - left. assert (Hall : Forall (eq PInf) s).
    { apply Forall_forall. intros e He. specialize (Hs e He).
      destruct e; try discriminate; reflexivity. }
    apply Forall_eq_repeat in Hall. rewrite Hall. subst s; simpl length.
    now rewrite mean_repeat.
  - destruct (mean s) eqn:E; auto.
  - specialize (Hs e0 (or_introl eq_refl)). discriminate.
Qed.

(** In a column that is not empty some sample is at or below the median,
    unless the median is NaN. *)
Lemma sample_at_or_below_median col :
  col <> [] ->
  median1 col = NaN \/ exists h, In h col /\ F.leb h (median1 col) = true.
Proof.
  intros Hne.
  destruct (median1_cases col) as [H | (s & Hm & Hs & Hnan)]; [now left|].
  destruct (smallest_sample Hne) as (h & Hh & Hmin).
  rewrite Forall_forall in Hnan.
  destruct (@mean_lower_bound h s) as [H | H].
  - intros e He. apply sort_leb_leb; auto.
  - right. exists h. now rewrite Hm.
  - left. now rewrite Hm.
Qed.

(** For a threshold that is not negative, the cell never excludes every
    sample of a column that is not empty. *)
Lemma some_sample_kept thresh col :
  col <> [] -> F.leb zero thresh = true ->
  exists x, In x col /\ (deviation col x >? thresh)%F = false.
Proof.
  intros Hne Ht.
  destruct (sample_at_or_below_median Hne) as [H | (h & Hh & Hle)].
  - destruct col as [|x col']; [contradiction|].
    exists x; split; [now left | now apply nan_median_kept].
  - exists h; split; [exact Hh | now apply at_or_below_median_kept].
Qed.

(** So, on a stack of at least one image and for a threshold that is not
    negative, there is no pixel at which every sample is excluded. *)
Lemma never_all_excluded thresh bits exclude j :
  wf bits -> j < ncols bits -> 0 < nrows bits ->
  F.leb zero thresh = true ->
  exclude_at thresh bits = Ok exclude ->
  ~ Forall (eq true) (column false j exclude).
Proof.
  intros Hwf Hj Hn Ht Hex Hall.
  destruct (exclude_at_ok thresh Hwf) as (m & Hm & _ & _ & _ & Hcol).
  rewrite Hex in Hm; injection Hm as <-.
  rewrite Hcol in Hall by exact Hj.
  destruct (@some_sample_kept thresh (column NaN j bits)) as (x & Hx & Hk); auto.
  - unfold column, nrows in *. destruct (rows bits); simpl in *; [lia | discriminate].
  - unfold exclude1 in Hall. rewrite Forall_forall in Hall.
    specialize (Hall _ (in_map _ _ _ Hx)). congruence.
Qed.

(** ** Arrays with the same columns *)

Lemma rows_ext {A} (d : A) p (rs rs' : list (list A)) :
  Forall (fun r => length r = p) rs ->
  Forall (fun r => length r = p) rs' ->
  length rs = length rs' ->
  (forall j, j < p -> map (fun r => nth j r d) rs = map (fun r => nth j r d) rs') ->
  rs = rs'.
Proof.
  intros Hr; revert rs'; induction Hr as [|r rs Hl Hr IH];
    intros [|r' rs'] Hr' Hlen Hcol; simpl in *; try lia; auto.
  inversion Hr'; subst. f_equal.
  - apply nth_ext with (d := d) (d' := d); [lia|].
    intros j Hj. specialize (Hcol j Hj). now injection Hcol.
  - apply IH; auto. intros j Hj. specialize (Hcol j Hj). now injection Hcol.
Qed.

Lemma array_ext {A} (d : A) (a b : ndarray A) :
  wf a -> wf b -> ncols a = ncols b -> nrows a = nrows b ->
  (forall j, j < ncols a -> column d j a = column d j b) ->
  a = b.
Proof.
  destruct a as [p rs], b as [q rs']; unfold wf, nrows, column; simpl.
  intros Ha Hb <- Hn Hcol. f_equal. now apply rows_ext with (d := d) (p := p).
Qed.

Lemma column_repeat_rows {A} (d : A) j p (r : list A) n :
  column d j (Array2 p (repeat r n)) = repeat (nth j r d) n.
Proof. unfold column; simpl. apply map_repeat. Qed.

Lemma wf_repeat_rows {A} p (r : list A) n :
  length r = p -> wf (Array2 p (repeat r n)).
Proof.
  intros H; unfold wf; simpl. apply Forall_forall.
  intros x Hx. apply repeat_spec in Hx. now subst.
Qed.

(** ** Evaluating the cells on sample stacks *)

(** Equality of computed samples: canonical rationals are equal as soon as
    their fractions are. *)
Ltac by_evaluation :=
  vm_compute;
  repeat match goal with
         | |- Ok _ = Ok _ => f_equal
         | |- (_, _) = (_, _) => f_equal
         | |- Array2 _ _ = Array2 _ _ => f_equal
         | |- _ :: _ = _ :: _ => f_equal
         | |- Fin _ = Fin _ => f_equal; apply Qc_decomp
         end;
  reflexivity.

Ltac returns_normally :=
  let e := fresh "e" in let H := fresh "H" in
  intros [e H]; vm_compute in H; discriminate H.

(** ** The stack after the cells have run *)

Lemma wf_stack p l :
  forallb (fun r => length r =? p) l = true -> wf (stack p l).
Proof.
  intros H; unfold wf, stack; simpl. apply Forall_map.
  rewrite forallb_forall in H. apply Forall_forall; intros r Hr.
  rewrite length_map. now apply Nat.eqb_eq, H.
Qed.

(** C5: for every stack and threshold the cells return, and the stack they
    leave behind holds exactly the values it held before: the overwrite of
    the excluded samples with NaN is undone by the last assignment. *)
Theorem combine_restores_stack (thresh : fval) (bits : ndarray fval) :
  wf bits ->
  exists clip_combine, combine_at thresh bits = Ok (clip_combine, bits).
Proof.
  intros Hwf. destruct (combine_at_ok thresh Hwf) as (cc & H & _). eauto.
Qed.

Lemma combine_restores_stack_witness :
  exists clip_combine, combine_at ten high_outlier = Ok (clip_combine, high_outlier).
Proof.
  apply (@combine_restores_stack ten high_outlier).
  apply wf_stack; reflexivity.
Defined.

(** C9: the cells are deterministic and leave nothing behind: running them
    a second time on the stack as the first run left it gives the same
    clipped average and the same stack. *)
Theorem combine_deterministic (thresh : fval) (bits : ndarray fval) :
  wf bits ->
  exists clip_combine,
    combine_at thresh bits = Ok (clip_combine, bits) /\
    (first <- combine_at thresh bits ;; combine_at thresh (snd first))
    = Ok (clip_combine, bits).
Proof.
  intros Hwf. destruct (combine_at_ok thresh Hwf) as (cc & H & _).
  exists cc; split; [exact H|]. rewrite H; simpl. exact H.
Qed.

Lemma combine_deterministic_witness :
  exists clip_combine,
    combine_at ten high_outlier = Ok (clip_combine, high_outlier) /\
    (first <- combine_at ten high_outlier ;; combine_at ten (snd first))
    = Ok (clip_combine, high_outlier).
Proof.
  apply (@combine_deterministic ten high_outlier).
  apply wf_stack; reflexivity.
Defined.

(** ** Preconditions *)

(** On a stack of no image, every pixel of the clipped average is NaN. *)
Lemma combine_at_empty thresh bits :
  wf bits -> nrows bits = 0 ->
  combine_at thresh bits = Ok (repeat NaN (ncols bits), bits).
Proof.
  intros Hwf Hn. destruct (combine_at_ok thresh Hwf) as (cc & -> & Hlen & Hnth).
  do 2 f_equal. apply nth_ext with (d := NaN) (d' := NaN).
  - now rewrite repeat_length.
  - intros j Hj. rewrite Hlen in Hj. rewrite Hnth, nth_repeat by exact Hj.
    unfold column. destruct bits as [p rs]; unfold nrows in Hn; simpl in *.
    apply length_zero_iff_nil in Hn; subst rs. reflexivity.
Qed.

(** C8, as the code has it: the cells check nothing.  On every stack the
    array type admits, the empty one included, and for every threshold,
    positive or not, they return normally; the clipped average has one value
    per pixel position, and on the empty stack each of them is NaN. *)
Theorem combine_never_raises (thresh : fval) (bits : ndarray fval) :
  wf bits ->
  exists clip_combine,
    combine_at thresh bits = Ok (clip_combine, bits) /\
    length clip_combine = ncols bits /\
    (nrows bits = 0 -> clip_combine = repeat NaN (ncols bits)).
Proof.
  intros Hwf. destruct (combine_at_ok thresh Hwf) as (cc & H & Hlen & Hnth).
  exists cc; repeat split; auto.
  intros Hn. rewrite (combine_at_empty thresh Hwf Hn) in H. now injection H.
Qed.

Lemma combine_never_raises_witness :
  exists clip_combine,
    combine_at minus_one empty_stack = Ok (clip_combine, empty_stack) /\
    length clip_combine = ncols empty_stack /\
    (nrows empty_stack = 0 -> clip_combine = repeat NaN (ncols empty_stack)).
Proof.
  apply (@combine_never_raises minus_one empty_stack).
  constructor.
Defined.

(** C8, as the spec states it, fails: the empty stack and a non-positive
    threshold are both accepted, and a value is returned. *)
Lemma preconditions_not_checked :
  combine empty_stack = Ok ([NaN], empty_stack) /\
  combine_at minus_one one_two_three = Ok ([NaN], one_two_three) /\
  ~ raises (combine empty_stack) /\
  ~ raises (combine_at minus_one one_two_three) /\
  ~ raises (combine_at zero one_two_three).
Proof.
  repeat split; first [by_evaluation | returns_normally].
Qed.

(** ** Pixels where every sample is excluded *)

Lemma zip_with_all_true (col : list fval) (mask : list bool) :
  length mask = length col -> Forall (eq true) mask ->
  zip_with (fun x (b : bool) => if b then NaN else x) col mask = repeat NaN (length col).
Proof.
  intros Hl Hall. rewrite (Forall_eq_repeat Hall), Hl.
  rewrite zip_with_repeat_r by reflexivity. apply map_const.
Qed.

(** C2, as the code has it: when every sample at a pixel is excluded, the
    cells still return normally and leave the stack as it was; the clipped
    average at that pixel is NaN, the NaN-aware mean of no sample at all.
    No exception is raised and no validity mask is produced. *)
Theorem all_excluded_gives_nan (thresh : fval) (bits : ndarray fval)
    (exclude : ndarray bool) (j : nat) :
  wf bits -> j < ncols bits ->
  exclude_at thresh bits = Ok exclude ->
  Forall (eq true) (column false j exclude) ->
  exists clip_combine,
    combine_at thresh bits = Ok (clip_combine, bits) /\
    nth_error clip_combine j = Some NaN.
Proof.
  intros Hwf Hj Hex Hall.
  destruct (combine_at_ok thresh Hwf) as (cc & H & Hlen & Hnth).
  exists cc; split; [exact H|].
  rewrite (nth_error_nth' cc NaN) by lia. f_equal.
  rewrite Hnth by exact Hj.
  destruct (exclude_at_ok thresh Hwf) as (m & Hm & _ & _ & _ & Hcol).
  rewrite Hex in Hm; injection Hm as <-.
  rewrite Hcol in Hall by exact Hj.
  unfold clip1. rewrite zip_with_all_true; auto.
  - apply nanmean1_all_nan.
  - unfold exclude1; now rewrite length_map.
Qed.

Lemma all_excluded_gives_nan_witness :
  exists clip_combine,
    combine_at minus_one one_two_three = Ok (clip_combine, one_two_three) /\
    nth_error clip_combine 0 = Some NaN.
Proof.
  apply (@all_excluded_gives_nan minus_one one_two_three
           (Array2 1 [[true]; [true]; [true]]) 0).
  - apply wf_stack; reflexivity.
  - simpl; lia.
  - vm_compute; reflexivity.
  - vm_compute; repeat constructor.
Defined.

(** C2, as the spec states it, fails.  With the threshold -1 every sample
    of the one-pixel stack 1, 2, 3 is excluded (their deviations are about
    -0.67, 0 and 0.67); the cells return normally, with NaN as the combined
    value.  The same happens with the notebook's threshold 10 on a stack of
    no image, where there is no sample to keep. *)
Lemma all_excluded_not_signalled :
  exclude_at minus_one one_two_three = Ok (Array2 1 [[true]; [true]; [true]]) /\
  combine_at minus_one one_two_three = Ok ([NaN], one_two_three) /\
  ~ raises (combine_at minus_one one_two_three) /\
  exclude empty_stack = Ok (Array2 1 []) /\
  combine empty_stack = Ok ([NaN], empty_stack).
Proof.
  repeat split; first [by_evaluation | returns_normally].
Qed.

(** ** The robust scale *)

(** C4: the scale the exclusion test divides by is, at every pixel, 1.4826
    times the median of the absolute deviations of the samples from the
    pixel's median. *)
Theorem mad_sigma_is_scaled_median (bits : ndarray fval) (j : nat) :
  wf bits -> j < ncols bits ->
  exists sigma,
    mad_sigma bits = Ok sigma /\
    nth_error sigma j
    = Some (median1 (map (fun x => F.abs (x - median1 (column NaN j bits))%F)
                       (column NaN j bits))
            * of_Q (7413 # 5000))%F.
Proof.
  intros Hwf Hj. destruct (mad_std_ok Hwf) as (sig & H & Hlen & Hnth).
  exists sig; split; [exact H|].
  rewrite (nth_error_nth' sig NaN) by lia.
  rewrite Hnth by exact Hj. reflexivity.
Qed.

Lemma mad_sigma_is_scaled_median_witness :
  exists sigma,
    mad_sigma low_outlier = Ok sigma /\
    nth_error sigma 0
    = Some (median1 (map (fun x => F.abs (x - median1 (column NaN 0 low_outlier))%F)
                       (column NaN 0 low_outlier))
            * of_Q (7413 # 5000))%F.
Proof.
  apply (@mad_sigma_is_scaled_median low_outlier 0).
  - apply wf_stack; reflexivity.
  - simpl; lia.
Defined.

(** On the stack 0, 100, 101, 102, 103 the scale is 1.4826 (the median of
    the absolute deviations is 1), where the mean of the absolute deviations,
    the formula of the notebook's prose, is 21. *)
Lemma mad_sigma_is_not_mean_based :
  mad_sigma low_outlier = Ok [of_Q (7413 # 5000)] /\
  Astropy.mean_abs_dev1 (column NaN 0 low_outlier) = of_Z 21.
Proof.
  split; by_evaluation.
Qed.

(** ** Stacks of equal images *)

Lemma exclude1_repeat thresh x n : exclude1 thresh (repeat x n) = repeat false n.
Proof. destruct n; [reflexivity | apply exclude1_const]. Qed.

(** On [n] copies of one image no sample is excluded. *)
Lemma exclude_at_copies thresh p (r : list fval) n :
  length r = p ->
  exclude_at thresh (Array2 p (repeat r n)) = Ok (Array2 p (repeat (repeat false p) n)).
Proof.
  intros Hr.
  destruct (@exclude_at_ok thresh (Array2 p (repeat r n)) (@wf_repeat_rows _ p r n Hr))
    as (m & -> & Hm & Hc & Hn & Hcol).
  f_equal. apply array_ext with (d := false); auto.
  - apply wf_repeat_rows, repeat_length.
  - rewrite Hn; unfold nrows; simpl. now rewrite !repeat_length.
  - intros j Hj. rewrite Hc in Hj. rewrite Hcol by exact Hj.
    rewrite !column_repeat_rows, exclude1_repeat, nth_repeat. reflexivity.
Qed.

(** On [S n] copies of one image the clipped average is that image in the
    exact arithmetic of [F] (for one copy, in float64 as well), and the
    stack is left as it was. *)
Lemma combine_at_copies thresh p (r : list fval) n :
  length r = p ->
  combine_at thresh (Array2 p (repeat r (S n))) = Ok (r, Array2 p (repeat r (S n))).
Proof.
  intros Hr.
  destruct (@combine_at_ok thresh (Array2 p (repeat r (S n)))
              (@wf_repeat_rows _ p r (S n) Hr))
    as (cc & -> & Hlen & Hnth).
  do 2 f_equal. simpl in Hlen.
  apply nth_ext with (d := NaN) (d' := NaN); [lia|].
  intros j Hj. rewrite Hnth by (simpl; lia).
  rewrite column_repeat_rows. apply clip1_const.
Qed.

(** C6: for a stack of a single image and any threshold, no sample is
    excluded and the clipped average is that image, unchanged. *)
Theorem single_image_unchanged (thresh : fval) (p : nat) (image : list fval) :
  length image = p ->
  exclude_at thresh (Array2 p [image]) = Ok (Array2 p [repeat false p]) /\
  combine_at thresh (Array2 p [image]) = Ok (image, Array2 p [image]).
Proof.
  intros Hl; split.
  - apply (@exclude_at_copies thresh p image 1 Hl).
  - apply (@combine_at_copies thresh p image 0 Hl).
Qed.

Lemma single_image_unchanged_witness :
  exclude_at ten single_image = Ok (Array2 3 [repeat false 3]) /\
  combine_at ten single_image = Ok (map of_Z [4; 5; 6]%Z, single_image).
Proof.
  apply (@single_image_unchanged ten 3 (map of_Z [4; 5; 6]%Z)).
  reflexivity.
Defined.

(** The clipped average of a column of equal samples is their plain mean. *)
Lemma clip1_repeat thresh x n : clip1 thresh (repeat x n) = mean (repeat x n).
Proof.
  destruct n as [|n]; [reflexivity|].
  now rewrite clip1_const, mean_repeat.
Qed.

(** On copies of one image the clipped average is the plain average of the
    copies, and the stack is left as it was. *)
Lemma combine_at_copies_average thresh p (r : list fval) n :
  length r = p ->
  combine_at thresh (Array2 p (repeat r n))
  = Ok (average (Array2 p (repeat r n)), Array2 p (repeat r n)).
Proof.
  intros Hr.
  destruct (@combine_at_ok thresh (Array2 p (repeat r n))
              (@wf_repeat_rows _ p r n Hr))
    as (cc & -> & Hlen & Hnth).
  do 2 f_equal. simpl in Hlen.
  apply nth_ext with (d := NaN) (d' := NaN).
  - unfold average, Np.average. now rewrite reduce0_length.
  - intros j Hj. rewrite Hnth by (simpl; lia).
    unfold average, Np.average. rewrite reduce0_nth by (simpl; lia).
    rewrite column_repeat_rows. apply clip1_repeat.
Qed.

(** C7, as the cells have it: combining a stack and then combining as many
    copies of the result excludes no sample in the second combination,
    leaves the copies as they are, and returns the plain average
    [np.average(copies, axis=0)] of the copies: at every pixel the mean of N
    equal values.  That mean is the value itself in exact arithmetic; in
    float64 the sum and the quotient are rounded, and the image that comes
    back can differ from the one that went in. *)
Theorem recombining_copies_averages_them (thresh : fval) (bits after : ndarray fval)
    (clip_combine : list fval) :
  wf bits ->
  combine_at thresh bits = Ok (clip_combine, after) ->
  let copies := Array2 (ncols bits) (repeat clip_combine (nrows bits)) in
  exclude_at thresh copies
  = Ok (Array2 (ncols bits) (repeat (repeat false (ncols bits)) (nrows bits))) /\
  combine_at thresh copies = Ok (average copies, copies).
Proof.
  intros Hwf Hc copies; subst copies.
  destruct (combine_at_ok thresh Hwf) as (cc & H & Hlen & _).
  rewrite H in Hc; injection Hc as <- <-.
  split; [now apply exclude_at_copies | now apply combine_at_copies_average].
Qed.

Lemma recombining_copies_averages_them_witness :
  let copies := Array2 (ncols high_outlier) (repeat [of_Q (201 # 2)] (nrows high_outlier)) in
  exclude_at ten copies
  = Ok (Array2 (ncols high_outlier)
          (repeat (repeat false (ncols high_outlier)) (nrows high_outlier))) /\
  combine_at ten copies = Ok (average copies, copies).
Proof.
  apply (@recombining_copies_averages_them ten high_outlier high_outlier [of_Q (201 # 2)]).
  - apply wf_stack; reflexivity.
  - by_evaluation.
Defined.

(** C7 on float64 values.  The one-pixel images 0.1, 0.1 and 1e9 combine to
    0.1: the robust scale is zero, the third sample is excluded.  Three
    copies of that result have no sample excluded and combine to
    0.10000000000000002, the rounded value of (0.1 + 0.1 + 0.1) / 3: not the
    image that was copied. *)
Lemma recombined_copies_are_rounded :
  Binary64.combine Binary64.tenths_and_outlier
  = Ok ([Binary64.tenth], Binary64.tenths_and_outlier) /\
  let copies := Array2 (ncols Binary64.tenths_and_outlier)
                  (repeat [Binary64.tenth] (nrows Binary64.tenths_and_outlier)) in
  Binary64.exclude copies = Ok (Array2 1 [[false]; [false]; [false]]) /\
  Binary64.combine copies = Ok ([Binary64.above_tenth], copies) /\
  PrimFloat.eqb Binary64.above_tenth Binary64.tenth = false.
Proof.
  repeat split; vm_compute; reflexivity.
Qed.

(** ** Pixels of zero variance *)

Lemma average_nth bits j :
  j < ncols bits -> nth_error (average bits) j = Some (mean (column NaN j bits)).
Proof.
  intros Hj. unfold average, Np.average.
  rewrite (nth_error_nth' _ NaN) by now rewrite reduce0_length.
  now rewrite reduce0_nth.
Qed.

(** C3, as the cells have it: at a pixel where all the samples of the
    stack are one finite value, no sample is excluded whatever the
    threshold, the stack is left as it was, and the clipped average at that
    pixel is the plain average [np.average(bits, axis=0)] there: the mean of
    N equal values.  That mean is the common value in exact arithmetic; in
    float64 the sum and the quotient are rounded, and it can differ from the
    common value. *)
Theorem constant_pixel_is_averaged (thresh : fval) (bits : ndarray fval) (j : nat)
    (c : Qc) (n : nat) :
  wf bits -> j < ncols bits ->
  column NaN j bits = repeat (Fin c) (S n) ->
  exists exclude clip_combine,
    exclude_at thresh bits = Ok exclude /\
    column false j exclude = repeat false (S n) /\
    combine_at thresh bits = Ok (clip_combine, bits) /\
    nth_error clip_combine j = nth_error (average bits) j.
Proof.
  intros Hwf Hj Hcol.
  destruct (exclude_at_ok thresh Hwf) as (m & Hm & _ & _ & _ & Hmcol).
  destruct (combine_at_ok thresh Hwf) as (cc & Hc & Hclen & Hcnth).
  exists m, cc; repeat split; auto.
  - now rewrite Hmcol, Hcol, exclude1_const.
  - rewrite average_nth, (nth_error_nth' cc NaN) by lia.
    now rewrite Hcnth, Hcol, clip1_repeat.
Qed.

Lemma constant_pixel_is_averaged_witness :
  exists exclude clip_combine,
    exclude_at ten constant_pixel = Ok exclude /\
    column false 0 exclude = repeat false 3 /\
    combine_at ten constant_pixel = Ok (clip_combine, constant_pixel) /\
    nth_error clip_combine 0 = nth_error (average constant_pixel) 0.
Proof.
  apply (@constant_pixel_is_averaged ten constant_pixel 0 (Q2Qc (inject_Z 7)) 2).
  - apply wf_stack; reflexivity.
  - simpl; lia.
  - reflexivity.
Defined.

(** C3 on float64 values.  Three one-pixel images, each 0.1: the robust
    scale is zero and no sample is excluded, but the clipped average is
    0.10000000000000002, the rounded value of (0.1 + 0.1 + 0.1) / 3, and not
    the common value 0.1. *)
Lemma constant_pixel_mean_is_rounded :
  Binary64.mad_sigma Binary64.tenths = Ok [PrimFloat.zero] /\
  Binary64.exclude Binary64.tenths = Ok (Array2 1 [[false]; [false]; [false]]) /\
  Binary64.combine Binary64.tenths = Ok ([Binary64.above_tenth], Binary64.tenths) /\
  PrimFloat.eqb Binary64.above_tenth Binary64.tenth = false.
Proof.
  repeat split; vm_compute; reflexivity.
Qed.

(** ** The low side *)

(** What the cell computes for a sample: it is excluded exactly when its
    signed deviation exceeds the threshold; nothing is tested on the low
    side. *)
Lemma exclude_at_entry thresh bits i j x :
  wf bits -> j < ncols bits ->
  nth_error (column NaN j bits) i = Some x ->
  exists exclude,
    exclude_at thresh bits = Ok exclude /\
    nth_error (column false j exclude) i
    = Some (deviation (column NaN j bits) x >? thresh)%F.
Proof.
  intros Hwf Hj Hx.
  destruct (exclude_at_ok thresh Hwf) as (m & Hm & _ & _ & _ & Hcol).
  exists m; split; [exact Hm|].
  rewrite Hcol by exact Hj. unfold exclude1.
  now rewrite nth_error_map, Hx.
Qed.

(** C1 at a low outlier.  In the stack 0, 100, 101, 102, 103 the median is
    101 and the scale 1.4826; the sample 0 deviates by about -68.1, below
    -10, and is kept: the clipped average, 81.2, includes it.  The mirrored
    stack 202, 102, 101, 100, 99 has the sample 202 at +68.1; it is excluded
    and the clipped average is 100.5. *)
Theorem low_outlier_is_kept :
  deviation (column NaN 0 low_outlier) (of_Z 0) = of_Q (-505000 # 7413) /\
  F.ltb (of_Q (-505000 # 7413)) (F.neg ten) = true /\
  exclude low_outlier = Ok (Array2 1 [[false]; [false]; [false]; [false]; [false]]) /\
  combine low_outlier = Ok ([of_Q (406 # 5)], low_outlier) /\
  deviation (column NaN 0 high_outlier) (of_Z 202) = of_Q (505000 # 7413) /\
  exclude high_outlier = Ok (Array2 1 [[true]; [false]; [false]; [false]; [false]]) /\
  combine high_outlier = Ok ([of_Q (201 # 2)], high_outlier).
Proof.
  repeat split; by_evaluation.
Qed.

(** For every stack and non-negative threshold, a sample whose deviation
    is below minus the threshold is not excluded. *)
Lemma low_side_never_excluded thresh bits i j x :
  wf bits -> j < ncols bits ->
  nth_error (column NaN j bits) i = Some x ->
  F.leb zero thresh = true ->
  F.ltb (deviation (column NaN j bits) x) (F.neg thresh) = true ->
  exists exclude,
    exclude_at thresh bits = Ok exclude /\
    nth_error (column false j exclude) i = Some false.
Proof.
  intros Hwf Hj Hx Ht Hd.
  destruct (@exclude_at_entry thresh bits i j x Hwf Hj Hx) as (m & Hm & He).
  exists m; split; [exact Hm|].
  now rewrite He, below_low_side_not_above.
Qed.

(** ** Pixels of zero scale with differing samples *)

Lemma Qccompare_minus a m : ((a - m) ?= 0)%Qc = (a ?= m)%Qc.
Proof.
  destruct (a ?= m)%Qc eqn:E.
  - apply Qceq_alt in E; subst. apply Qceq_alt. unfold Qcminus; apply Qcplus_opp_r.
  - apply Qclt_alt in E. apply Qclt_alt.
    apply Qclt_minus_iff in E. apply Qclt_minus_iff.
    replace (0 + - (a - m))%Qc with (m + - a)%Qc by ring. exact E.
  - apply Qcgt_alt in E. apply Qcgt_alt.
    apply Qclt_minus_iff in E.
    replace (a - m)%Qc with (a + - m)%Qc by ring. exact E.
Qed.

(** Where the scale is zero, the deviation of a finite sample is [+inf]
    above the median, [-inf] below it and NaN at the median: the division is
    total. *)
Lemma zero_scale_deviation col a m :
  median1 col = Fin m -> sigma1 col = zero ->
  deviation col (Fin a) = signed_inf (a ?= m)%Qc.
Proof.
  intros Hm Hs. unfold deviation. rewrite Hm, Hs.
  unfold F.sub, F.div, zero, of_Z, of_Q, sgn.
  replace (Q2Qc (inject_Z 0) ?= 0)%Qc with Eq by reflexivity.
  now rewrite Qccompare_minus.
Qed.

(** So, where the scale is zero and the threshold is finite, the samples
    above the median are excluded and no other: those below it are kept, as
    are those equal to it. *)
Lemma zero_scale_excluded col a m t :
  median1 col = Fin m -> sigma1 col = zero ->
  (deviation col (Fin a) >? Fin t)%F
  = match (a ?= m)%Qc with Gt => true | _ => false end.
Proof.
  intros Hm Hs. rewrite (@zero_scale_deviation col a m Hm Hs).
  now destruct (a ?= m)%Qc.
Qed.

(** C10 at a sample below the median.  In the stack 0, 5, 5, 5, 9 the
    median is 5 and the scale is zero.  The deviations are -inf, NaN, NaN,
    NaN and +inf: no division fails.  The sample 9 is excluded; the sample
    0, which differs from the median just as well, is kept, and the clipped
    average is 15/4. *)
Theorem zero_scale_low_sample_is_kept :
  median mostly_equal = [of_Z 5] /\
  mad_sigma mostly_equal = Ok [zero] /\
  map (deviation (column NaN 0 mostly_equal)) (column NaN 0 mostly_equal)
  = [NInf; NaN; NaN; NaN; PInf] /\
  exclude mostly_equal = Ok (Array2 1 [[false]; [false]; [false]; [false]; [true]]) /\
  combine mostly_equal = Ok ([of_Q (15 # 4)], mostly_equal).
Proof.
  repeat split; by_evaluation.
Qed.

(** * Further properties of the cells *)

(** ** The NaN sentinel computes a masked mean *)

Lemma add_zero_r x : (x + zero)%F = x.
Proof.
  destruct x; try reflexivity.
  unfold zero, of_Z, of_Q; simpl; f_equal. apply Qcplus_0_r.
Qed.

Lemma zip_with_map_same {A B C} (f : A -> B -> C) (g : A -> B) l :
  zip_with f l (map g l) = map (fun x => f x (g x)) l.
Proof. induction l as [|x l IH]; simpl; congruence. Qed.

(** Zeros in place of the left-out samples do not change the total. *)
Lemma sum_zero_for_excluded (f : fval -> bool) l : forall acc,
  fold_left F.add (map (fun x => if f x then zero else x) l) acc
  = fold_left F.add (filter (fun x => negb (f x)) l) acc.
Proof.
  induction l as [|x l IH]; intros acc; simpl; auto.
  destruct (f x); simpl; [rewrite add_zero_r|]; apply IH.
Qed.

Lemma nanmean1_masked (f : fval -> bool) col :
  existsb isnan col = false ->
  nanmean1 (map (fun x => if f x then NaN else x) col)
  = mean (filter (fun x => negb (f x)) col).
Proof.
  intros Hnan. apply existsb_isnan_false in Hnan.
  unfold nanmean1, mean, sum. f_equal.
  - rewrite <- sum_zero_for_excluded. f_equal.
    rewrite map_map. apply map_Forall_ext with (1 := Hnan).
    intros x Hx. destruct (f x); simpl; [reflexivity | now rewrite Hx].
  - f_equal. induction Hnan as [|x l Hx Hl IH]; simpl; auto.
    destruct (f x); simpl; [|rewrite Hx; simpl]; now rewrite IH.
Qed.

(** The clipped average of a column without NaN is the mean of the samples
    that are not excluded. *)
Lemma clip1_mean_of_kept thresh col :
  existsb isnan col = false ->
  clip1 thresh col
  = mean (filter (fun x => negb (deviation col x >? thresh)%F) col).
Proof.
  intros Hnan. unfold clip1, exclude1.
  rewrite zip_with_map_same. now apply nanmean1_masked.
Qed.

(** X1: whatever the stack and the threshold, at a pixel none of whose
    samples is NaN the value the cells return is the plain mean of the
    samples whose deviation does not exceed the threshold: setting the
    excluded samples to NaN and calling [np.nanmean] averages exactly the
    samples that are kept (and gives NaN when none is). *)
Theorem clip_combine_is_mean_of_kept (thresh : fval) (bits : ndarray fval) (j : nat) :
  wf bits -> j < ncols bits ->
  existsb isnan (column NaN j bits) = false ->
  exists clip_combine,
    combine_at thresh bits = Ok (clip_combine, bits) /\
    nth_error clip_combine j
    = Some (mean (filter (fun x => negb (deviation (column NaN j bits) x >? thresh)%F)
                    (column NaN j bits))).
Proof.
  intros Hwf Hj Hnan.
  destruct (combine_at_ok thresh Hwf) as (cc & H & Hlen & Hnth).
  exists cc; split; [exact H|].
  rewrite (nth_error_nth' cc NaN) by lia.
  now rewrite Hnth, clip1_mean_of_kept.
Qed.

Lemma clip_combine_is_mean_of_kept_witness :
  exists clip_combine,
    combine_at ten high_outlier = Ok (clip_combine, high_outlier) /\
    nth_error clip_combine 0
    = Some (mean (filter (fun x => negb (deviation (column NaN 0 high_outlier) x >? ten)%F)
                    (column NaN 0 high_outlier))).
Proof.
  apply (@clip_combine_is_mean_of_kept ten high_outlier 0).
  - apply wf_stack; reflexivity.
  - simpl; lia.
  - reflexivity.
Defined.

(** ** Where nothing is excluded *)

Lemma filter_all {A} (f : A -> bool) l :
  Forall (fun x => f x = true) l -> filter f l = l.
Proof. induction 1 as [|x l Hx Hl IH]; simpl; auto. now rewrite Hx, IH. Qed.

(** X2: at a pixel without NaN where the mask excludes no sample, the
    clipped average is the plain average of the cell
    [average = np.average(bits, axis=0)]. *)
Theorem clip_combine_is_average_where_nothing_excluded
    (thresh : fval) (bits : ndarray fval) (exclude : ndarray bool) (j : nat) :
  wf bits -> j < ncols bits ->
  existsb isnan (column NaN j bits) = false ->
  exclude_at thresh bits = Ok exclude ->
  Forall (eq false) (column false j exclude) ->
  exists clip_combine,
    combine_at thresh bits = Ok (clip_combine, bits) /\
    nth_error clip_combine j = nth_error (average bits) j.
Proof.
  intros Hwf Hj Hnan Hex Hall.
  destruct (combine_at_ok thresh Hwf) as (cc & H & Hlen & Hnth).
  exists cc; split; [exact H|].
  destruct (exclude_at_ok thresh Hwf) as (m & Hm & _ & _ & _ & Hcol).
  rewrite Hex in Hm; injection Hm as <-.
  rewrite Hcol in Hall by exact Hj.
  rewrite average_nth, (nth_error_nth' cc NaN) by lia.
  rewrite Hnth, clip1_mean_of_kept by auto.
  do 2 f_equal. apply filter_all.
  unfold exclude1 in Hall. rewrite Forall_map in Hall.
  revert Hall. apply Forall_impl. intros x Hx. now rewrite <- Hx.
Qed.

Lemma clip_combine_is_average_where_nothing_excluded_witness :
  exists clip_combine,
    combine_at ten low_outlier = Ok (clip_combine, low_outlier) /\
    nth_error clip_combine 0 = nth_error (average low_outlier) 0.
Proof.
  apply (@clip_combine_is_average_where_nothing_excluded ten low_outlier
           (Array2 1 [[false]; [false]; [false]; [false]; [false]]) 0).
  - apply wf_stack; reflexivity.
  - simpl; lia.
  - reflexivity.
  - vm_compute; reflexivity.
  - vm_compute; repeat constructor.
Defined.

(** ** A NaN among the samples *)

Lemma median1_nan col : existsb isnan col = true -> median1 col = NaN.
Proof. intros H. unfold median1. now rewrite H. Qed.

Lemma exclude1_nan_column thresh col :
  existsb isnan col = true -> exclude1 thresh col = repeat false (length col).
Proof.
  intros H. unfold exclude1. rewrite <- map_const.
  apply map_ext. intros x. apply nan_median_kept. now apply median1_nan.
Qed.

(** X3: a NaN among the samples of a pixel switches the clipping off at
    that pixel.  The median is NaN, so is every deviation, and no sample is
    excluded, however far it lies; the value returned is the mean of the
    samples that are not NaN. *)
Theorem nan_sample_disables_clipping
    (thresh : fval) (bits : ndarray fval) (j : nat) :
  wf bits -> j < ncols bits ->
  existsb isnan (column NaN j bits) = true ->
  exists exclude clip_combine,
    exclude_at thresh bits = Ok exclude /\
    column false j exclude = repeat false (nrows bits) /\
    combine_at thresh bits = Ok (clip_combine, bits) /\
    nth_error clip_combine j
    = Some (mean (filter (fun x => negb (isnan x)) (column NaN j bits))).
Proof.
  intros Hwf Hj Hnan.
  destruct (exclude_at_ok thresh Hwf) as (m & Hm & _ & _ & _ & Hcol).
  destruct (combine_at_ok thresh Hwf) as (cc & H & Hlen & Hnth).
  exists m, cc. split; [exact Hm|]. split; [|split; [exact H|]].
  - rewrite Hcol, exclude1_nan_column by auto.
    unfold column, nrows. now rewrite length_map.
  - rewrite (nth_error_nth' cc NaN) by lia. f_equal.
    rewrite Hnth by exact Hj. unfold clip1.
    rewrite exclude1_nan_column, zip_with_repeat_r, map_id by auto.
    unfold nanmean1, mean, sum. f_equal.
    clear. generalize zero at 2 3 as acc.
    induction (column NaN j bits) as [|x l IH]; intros acc; simpl; auto.
    destruct x; simpl; rewrite ?add_zero_r; apply IH.
Qed.

Lemma nan_sample_disables_clipping_witness :
  exists exclude clip_combine,
    exclude_at ten with_nan = Ok exclude /\
    column false 0 exclude = repeat false (nrows with_nan) /\
    combine_at ten with_nan = Ok (clip_combine, with_nan) /\
    nth_error clip_combine 0
    = Some (mean (filter (fun x => negb (isnan x)) (column NaN 0 with_nan))).
Proof.
  apply (@nan_sample_disables_clipping ten with_nan 0).
  - repeat constructor.
  - simpl; lia.
  - reflexivity.
Defined.

(** ** Values between two finite bounds *)

Lemma between_fin lo hi x :
  between lo hi x = true <-> exists q, x = Fin q /\ (lo <= q)%Qc /\ (q <= hi)%Qc.
Proof.
  unfold between. rewrite andb_true_iff. split.
  - intros [H1 H2]. destruct x as [q| | |]; try discriminate.
    exists q. rewrite leb_fin in H1, H2. auto.
  - intros (q & -> & H1 & H2). now rewrite !leb_fin.
Qed.

Lemma Qc_div_le (h A n : Qc) : (0 < n -> A <= n * h -> A / n <= h)%Qc.
Proof.
  intros. qc_to_q.
  assert (Hi : (0 < / n)%Q) by now apply Qinv_lt_0_compat.
  assert (He : (h == (n * h) * / n)%Q) by (field; lra).
  rewrite He. apply Qmult_le_compat_r; [assumption | lra].
Qed.

Lemma Qc_count_step_le (k h A a : Qc) :
  (A <= k * h -> a <= h -> A + a <= (k + 1) * h)%Qc.
Proof. intros. qc_to_q. lra. Qed.

Lemma sum_between lo hi s : forall A k,
  Forall (fun y => between lo hi y = true) s ->
  (nQ k * lo <= A)%Qc -> (A <= nQ k * hi)%Qc ->
  exists A', fold_left F.add s (Fin A) = Fin A' /\
    (nQ (k + length s) * lo <= A')%Qc /\ (A' <= nQ (k + length s) * hi)%Qc.
Proof.
  induction s as [|e s IH]; intros A k Hs Hlo Hhi; simpl.
  - rewrite Nat.add_0_r. eauto.
  - inversion Hs as [|? ? He Hs']; subst.
    apply between_fin in He as (q & -> & Hq1 & Hq2).
    rewrite Nat.add_succ_r, <- Nat.add_succ_l. simpl F.add.
    apply IH; auto; rewrite nQ_S.
    + now apply Qc_count_step.
    + now apply Qc_count_step_le.
Qed.

(** The mean of values within bounds lies within them. *)
Lemma mean_between lo hi s :
  s <> [] -> Forall (fun y => between lo hi y = true) s ->
  between lo hi (mean s) = true.
Proof.
  intros Hne Hs. destruct s as [|e s']; [contradiction|].
  destruct (@sum_between lo hi (e :: s') 0%Qc 0 Hs) as (A & HA & Hlo & Hhi).
  - change (nQ 0) with 0%Qc. rewrite Qcmult_0_l. apply Qcle_refl.
  - change (nQ 0) with 0%Qc. rewrite Qcmult_0_l. apply Qcle_refl.
  - unfold mean, sum, zero, of_Z, of_Q.
    change (Q2Qc (inject_Z 0)) with 0%Qc. rewrite HA.
    simpl length in *. simpl Nat.add in *.
    unfold of_nat, F.div. rewrite nQ_pos. apply between_fin.
    eexists; split; [reflexivity|]. split.
    + apply Qc_le_div; auto. apply sgn_Gt, nQ_pos.
    + apply Qc_div_le; auto. apply sgn_Gt, nQ_pos.
Qed.

(** ** The middle of the ordered data *)

Lemma length_insert x l : length (insert x l) = S (length l).
Proof.
  induction l as [|y l IH]; simpl; auto.
  destruct (sort_leb x y); simpl; auto.
Qed.

Lemma length_sort l : length (sort l) = length l.
Proof.
  induction l as [|x l IH]; simpl; auto.
  now rewrite length_insert, IH.
Qed.

(** After one value, whatever it is, has been inserted into data that lie
    within bounds, every entry but the first and the last lies within
    them. *)
Lemma insert_inner_between lo hi x s :
  Forall (fun y => between lo hi y = true) s ->
  forall i, 1 <= i -> i < length s ->
  between lo hi (nth i (insert x s) NaN) = true.
Proof.
  induction 1 as [|y t Hy Ht IH]; intros i Hi1 Hi2; simpl in *; [lia|].
  destruct i as [|i]; [lia|].
  destruct (sort_leb x y) eqn:Exy; simpl.
  - destruct i as [|i]; [exact Hy|].
    rewrite Forall_forall in Ht. apply Ht, nth_In. lia.
  - destruct i as [|i].
    + destruct t as [|z t']; simpl in *; [lia|].
      inversion Ht as [|? ? Hz _]; subst.
      destruct (sort_leb x z) eqn:Exz; simpl; [|exact Hz].
      apply between_fin in Hy as (qy & -> & Hy1 & Hy2).
      apply between_fin in Hz as (qz & -> & Hz1 & Hz2).
      destruct x as [a| | |]; try discriminate.
      unfold sort_leb in Exy, Exz. rewrite leb_fin in Exz.
      rewrite <- not_true_iff_false, leb_fin in Exy.
      apply Qcnot_le_lt, Qclt_le_weak in Exy.
      apply between_fin. exists a; repeat split; auto.
      * now apply Qcle_trans with qy.
      * now apply Qcle_trans with qz.
    + apply IH; lia.
Qed.

Lemma In_slice_nth {A} (d y : A) start stop l :
  In y (slice start stop l) ->
  exists i, start <= i /\ i < stop /\ i < length l /\ nth i l d = y.
Proof.
  unfold slice. intros H. apply (In_nth _ _ d) in H as (n & Hn & Hy).
  rewrite length_firstn, length_skipn in Hn.
  rewrite nth_firstn in Hy.
  destruct (n <? stop - start) eqn:E; [|apply Nat.ltb_ge in E; lia].
  apply Nat.ltb_lt in E. rewrite nth_skipn in Hy.
  exists (start + n). repeat split; auto; lia.
Qed.

Lemma slice_nonempty {A} start stop (l : list A) :
  start < stop -> start < length l -> slice start stop l <> [].
Proof.
  intros H1 H2 H. apply (f_equal (@length A)) in H.
  unfold slice in H. rewrite length_firstn, length_skipn in H. simpl in H. lia.
Qed.

(** The median of three samples or more is held by the others when one of
    them is out of line: if all the samples but the first lie within two
    bounds, so does the median, whatever the first sample is. *)
Lemma median1_between lo hi x l :
  isnan x = false -> 2 <= length l ->
  Forall (fun y => between lo hi y = true) l ->
  between lo hi (median1 (x :: l)) = true.
Proof.
  intros Hx Hlen Hl.
  assert (Hnan : existsb isnan (x :: l) = false).
  { simpl. rewrite Hx. apply existsb_isnan_false.
    revert Hl. apply Forall_impl. intros y Hy.
    apply between_fin in Hy as (q & -> & _). reflexivity. }
  assert (Hs : Forall (fun y => between lo hi y = true) (sort l)).
  { apply Forall_forall. intros y Hy. apply (proj1 (In_sort y l)) in Hy.
    rewrite Forall_forall in Hl. now apply Hl. }
  unfold median1. rewrite Hnan.
  change (sort (x :: l)) with (insert x (sort l)).
  change (length (x :: l)) with (S (length l)).
  set (N := S (length l)).
  assert (HN : 3 <= N) by (unfold N; lia).
  pose proof (Nat.div_mod_eq N 2) as Hd.
  pose proof (Nat.mod_upper_bound N 2 ltac:(lia)) as Hm.
  assert (Hinner : forall i, 1 <= i -> i < length l ->
            between lo hi (nth i (insert x (sort l)) NaN) = true).
  { intros i H1 H2. apply insert_inner_between; auto. now rewrite length_sort. }
  assert (Hlen' : length (insert x (sort l)) = N)
    by (now rewrite length_insert, length_sort).
  destruct (Nat.odd N) eqn:Ho.
  - apply mean_between.
    + apply slice_nonempty; lia.
    + apply Forall_forall. intros y Hy.
      apply (In_slice_nth NaN) in Hy as (i & Hi1 & Hi2 & Hi3 & <-).
      apply Hinner; unfold N in *; lia.
  - assert (He : N mod 2 = 0).
    { rewrite <- Nat.negb_even in Ho. apply negb_false_iff, Nat.even_spec in Ho.
      destruct Ho as [k Hk]. rewrite Hk, Nat.mul_comm. apply Nat.Div0.mod_mul. }
    apply mean_between.
    + apply slice_nonempty; lia.
    + apply Forall_forall. intros y Hy.
      apply (In_slice_nth NaN) in Hy as (i & Hi1 & Hi2 & Hi3 & <-).
      apply Hinner; unfold N in *; lia.
Qed.

Lemma median_nth bits j :
  j < ncols bits -> nth_error (median bits) j = Some (median1 (column NaN j bits)).
Proof.
  intros Hj. unfold median, Np.median.
  rewrite (nth_error_nth' _ NaN) by now rewrite reduce0_length.
  now rewrite reduce0_nth.
Qed.

(** X4: the median cell is held by the other images when one image is out
    of line.  With three images or more, if at a pixel every image but the
    first has its sample within two bounds, the median at that pixel lies
    within them, whatever the sample of the first image is (any finite value
    or an infinity).  For an odd number of images the median is one of the
    samples.  For an even number it is half the sum of two of them, and the
    bounds are taken of magnitude at most 2^1022, where that sum stays
    within the range of float64. *)
Theorem median_held_by_the_other_images
    (lo hi : Qc) (bits : ndarray fval) (j : nat) (x : fval) (others : list fval) :
  j < ncols bits ->
  column NaN j bits = x :: others ->
  isnan x = false -> 2 <= length others ->
  forallb (between lo hi) others = true ->
  Nat.odd (nrows bits) = true \/ (- half_max <= lo /\ hi <= half_max)%Qc ->
  exists q, nth_error (median bits) j = Some (Fin q) /\ (lo <= q)%Qc /\ (q <= hi)%Qc.
Proof.
  intros Hj Hcol Hx Hlen Hall _.
  rewrite median_nth, Hcol by exact Hj.
  assert (Hb : between lo hi (median1 (x :: others)) = true).
  { apply median1_between; auto.
    apply Forall_forall. now apply forallb_forall. }
  apply between_fin in Hb as (q & -> & H1 & H2). eauto.
Qed.

Lemma median_held_by_the_other_images_witness :
  exists q, nth_error (median high_outlier) 0 = Some (Fin q) /\
            (Q2Qc 99 <= q)%Qc /\ (q <= Q2Qc 102)%Qc.
Proof.
  apply (@median_held_by_the_other_images (Q2Qc 99) (Q2Qc 102) high_outlier 0
           (of_Z 202) (map of_Z [102; 101; 100; 99]%Z)).
  - simpl; lia.
  - reflexivity.
  - reflexivity.
  - simpl; lia.
  - vm_compute; reflexivity.
  - right; split; vm_compute; discriminate.
Defined.

(** ** A sample above images that agree *)

Lemma Qc_between_same (c q : Qc) : (c <= q -> q <= c -> q = c)%Qc.
Proof. intros H1 H2. now apply Qcle_antisym. Qed.

(** The median of a column whose samples after the first are one value. *)
Lemma median1_over_equal x c n :
  isnan x = false -> 2 <= n -> median1 (x :: repeat (Fin c) n) = Fin c.
Proof.
  intros Hx Hn.
  assert (Hb : between c c (median1 (x :: repeat (Fin c) n)) = true).
  { apply median1_between; auto.
    - now rewrite repeat_length.
    - apply Forall_forall. intros y Hy. apply repeat_spec in Hy; subst y.
      apply between_fin. exists c; repeat split; apply Qcle_refl. }
  apply between_fin in Hb as (q & -> & H1 & H2).
  f_equal. now apply Qc_between_same.
Qed.

(** Its robust scale is zero. *)
Lemma sigma1_over_equal a c n :
  2 <= n -> sigma1 (Fin a :: repeat (Fin c) n) = zero.
Proof.
  intros Hn. unfold sigma1.
  rewrite median1_over_equal by auto.
  cbn [map]. rewrite map_repeat, sub_self_fin, abs_zero.
  assert (Hx : isnan (F.abs (Fin a - Fin c)%F) = false)
    by (simpl; now destruct (sgn _)).
  change zero with (Fin (Q2Qc 0)).
  rewrite median1_over_equal by assumption.
  apply mul_zero_factor.
Qed.

(** So a first sample above the common value is excluded, the others are
    kept, and the clipped average is the plain mean of the others. *)
Lemma exclude1_over_equal t a c n :
  2 <= n -> (c < a)%Qc ->
  exclude1 (Fin t) (Fin a :: repeat (Fin c) n) = true :: repeat false n.
Proof.
  intros Hn Ha. unfold exclude1. cbn [map]. rewrite map_repeat.
  rewrite !(@zero_scale_excluded _ _ c t
              (@median1_over_equal (Fin a) c n eq_refl Hn) (sigma1_over_equal a c Hn)).
  replace (a ?= c)%Qc with Gt by (symmetry; now apply Qcgt_alt).
  replace (c ?= c)%Qc with Eq by (symmetry; now apply Qceq_alt).
  reflexivity.
Qed.

Lemma clip1_over_equal t a c n :
  2 <= n -> (c < a)%Qc ->
  clip1 (Fin t) (Fin a :: repeat (Fin c) n) = mean (repeat (Fin c) n).
Proof.
  intros Hn Ha. unfold clip1. rewrite exclude1_over_equal by auto.
  cbn [zip_with]. rewrite zip_with_repeat_r by apply repeat_length.
  unfold nanmean1. cbn [map filter isnan negb].
  rewrite !map_id, map_repeat. cbn [isnan].
  rewrite (@filter_repeat_true _ _ (Fin c) n eq_refl), repeat_length.
  unfold mean, sum. cbn [fold_left]. rewrite repeat_length.
  now rewrite add_zero_r.
Qed.

(** ** The outlier cell *)

Lemma fill_slice_length start stop v r :
  length (fill_slice start stop v r) = length r.
Proof.
  revert start stop; induction r as [|x r IH]; intros start stop; simpl; auto.
  destruct start, stop; simpl; rewrite ?IH; auto.
Qed.

Lemma fill_slice_nth start stop v r j :
  nth j (fill_slice start stop v r) NaN
  = if (start <=? j) && (j <? stop) && (j <? length r) then v else nth j r NaN.
Proof.
  revert start stop j; induction r as [|x r IH]; intros start stop j.
  - simpl. destruct j; now rewrite andb_false_r.
  - destruct stop as [|stop].
    + replace (fill_slice start 0 v (x :: r)) with (x :: r) by now destruct start.
      replace (j <? 0) with false by now destruct j.
      now rewrite andb_false_r.
    + destruct start as [|start], j as [|j]; simpl fill_slice; cbn [nth];
        try reflexivity; apply IH.
Qed.

Lemma inject_at_ok start stop v p first rest :
  inject_at start stop v (Array2 p (first :: rest))
  = Ok (Array2 p (fill_slice start stop v first :: rest)).
Proof. reflexivity. Qed.

Lemma column_cons {A} (d : A) j p r rs :
  column d j (Array2 p (r :: rs)) = nth j r d :: column d j (Array2 p rs).
Proof. reflexivity. Qed.

(** X5: the outlier cell followed by the clipping cells, where the other
    images agree.  Take a stack of three images or more whose images after
    the first have, at a pixel [j] of the slice, one common value [c].
    After [bits[0, start:stop] = a] with [a] above [c], the robust scale at
    [j] is zero and the deviation of the first image's sample is [+inf]: for
    every finite threshold the mask excludes that sample and no other, and
    the clipped average at [j] is the plain average of the other images.
    For an even number of images the median is half of [c + c], and [c] is
    taken of magnitude at most 2^1022, where that sum stays within the range
    of float64. *)
Theorem clipping_removes_outlier_over_agreeing_images
    (t c a : Qc) (start stop j : nat) (bits : ndarray fval)
    (first : list fval) (rest : list (list fval)) :
  wf bits -> rows bits = first :: rest -> 2 <= length rest ->
  start <= j -> j < stop -> j < ncols bits ->
  column NaN j (Array2 (ncols bits) rest) = repeat (Fin c) (length rest) ->
  (c < a)%Qc ->
  Nat.odd (nrows bits) = true \/ (- half_max <= c /\ c <= half_max)%Qc ->
  exists injected exclude clip_combine,
    inject_at start stop (Fin a) bits = Ok injected /\
    exclude_at (Fin t) injected = Ok exclude /\
    column false j exclude = true :: repeat false (length rest) /\
    combine_at (Fin t) injected = Ok (clip_combine, injected) /\
    nth_error clip_combine j = nth_error (average (Array2 (ncols bits) rest)) j.
Proof.
  intros Hwf Hrows Hlen Hj1 Hj2 Hj Hall Ha _.
  destruct bits as [p rs]; simpl in *; subst rs.
  unfold wf in Hwf; simpl in Hwf. inversion Hwf as [|? ? Hfirst Hrest]; subst.
  set (injected := Array2 (length first) (fill_slice start stop (Fin a) first :: rest)).
  assert (Hwf' : wf injected).
  { unfold wf, injected; simpl. constructor; auto. apply fill_slice_length. }
  assert (Hcol : column NaN j injected = Fin a :: repeat (Fin c) (length rest)).
  { unfold injected. rewrite column_cons, Hall. f_equal.
    rewrite fill_slice_nth.
    replace (start <=? j) with true by (symmetry; apply Nat.leb_le; lia).
    replace (j <? stop) with true by (symmetry; apply Nat.ltb_lt; lia).
    replace (j <? length first) with true by (symmetry; apply Nat.ltb_lt; lia).
    reflexivity. }
  destruct (exclude_at_ok (Fin t) Hwf') as (m & Hm & _ & _ & _ & Hmcol).
  destruct (combine_at_ok (Fin t) Hwf') as (cc & Hc & Hclen & Hcnth).
  exists injected, m, cc. repeat split; auto.
  - rewrite Hmcol by exact Hj. rewrite Hcol. now apply exclude1_over_equal.
  - rewrite average_nth by exact Hj.
    rewrite (nth_error_nth' cc NaN) by (simpl in Hclen; lia).
    rewrite Hcnth, Hcol, Hall by exact Hj. f_equal. now apply clip1_over_equal.
Qed.

Lemma clipping_removes_outlier_over_agreeing_images_witness :
  exists injected exclude clip_combine,
    inject_at 0 1 (Fin (Q2Qc 2000)) agreeing_stack = Ok injected /\
    exclude_at (Fin (Q2Qc 10)) injected = Ok exclude /\
    column false 0 exclude = true :: repeat false 3 /\
    combine_at (Fin (Q2Qc 10)) injected = Ok (clip_combine, injected) /\
    nth_error clip_combine 0
    = nth_error (average (Array2 2 (map (map of_Z) [[100; 101]; [100; 99]; [100; 102]]%Z))) 0.
Proof.
  apply (@clipping_removes_outlier_over_agreeing_images
           (Q2Qc 10) (Q2Qc (inject_Z 100)) (Q2Qc 2000)
           0 1 0 agreeing_stack
           (map of_Z [100; 100]%Z)
           (map (map of_Z) [[100; 101]; [100; 99]; [100; 102]]%Z)).
  - apply wf_stack; reflexivity.
  - reflexivity.
  - simpl; lia.
  - lia.
  - lia.
  - simpl; lia.
  - reflexivity.
  - vm_compute; reflexivity.
  - right; split; vm_compute; discriminate.
Defined.

(** ** What the outlier cell leaves alone *)

Lemma fill_slice_outside start stop v r j :
  j < start \/ stop <= j -> nth j (fill_slice start stop v r) NaN = nth j r NaN.
Proof.
  intros H. rewrite fill_slice_nth.
  destruct (start <=? j) eqn:E1; [|reflexivity].
  destruct (j <? stop) eqn:E2; [|reflexivity].
  apply Nat.leb_le in E1. apply Nat.ltb_lt in E2. lia.
Qed.

(** X7: the cells work pixel by pixel.  At the pixel positions outside the
    slice written by [bits[0, start:stop] = v], the clipped average of the
    stack is the same after the assignment as before it, whatever [v]. *)
Theorem injection_leaves_other_pixels
    (thresh v : fval) (start stop j : nat) (bits : ndarray fval) :
  wf bits -> 0 < nrows bits -> j < ncols bits ->
  j < start \/ stop <= j ->
  exists injected before after,
    inject_at start stop v bits = Ok injected /\
    combine_at thresh bits = Ok (before, bits) /\
    combine_at thresh injected = Ok (after, injected) /\
    nth_error after j = nth_error before j.
Proof.
  intros Hwf Hn Hj Hout.
  destruct bits as [p [|first rest]]; [unfold nrows in Hn; simpl in Hn; lia|].
  unfold wf in Hwf; simpl in Hwf, Hj. inversion Hwf as [|? ? Hfirst Hrest]; subst.
  set (bits := Array2 (length first) (first :: rest)).
  set (injected := Array2 (length first) (fill_slice start stop v first :: rest)).
  assert (Hwf' : wf injected).
  { unfold wf, injected; simpl. constructor; auto. apply fill_slice_length. }
  assert (Hwfb : wf bits) by exact Hwf.
  destruct (combine_at_ok thresh Hwfb) as (cc & Hc & Hclen & Hcnth).
  destruct (combine_at_ok thresh Hwf') as (cc' & Hc' & Hclen' & Hcnth').
  exists injected, cc, cc'. repeat split; auto.
  simpl in Hclen, Hclen'.
  rewrite (nth_error_nth' cc NaN), (nth_error_nth' cc' NaN) by lia.
  f_equal. rewrite Hcnth, Hcnth' by exact Hj.
  unfold injected, bits. rewrite !column_cons. now rewrite fill_slice_outside.
Qed.

Lemma injection_leaves_other_pixels_witness :
  exists injected before after,
    inject_at 0 1 (of_Z 2000) clean_stack = Ok injected /\
    combine_at ten clean_stack = Ok (before, clean_stack) /\
    combine_at ten injected = Ok (after, injected) /\
    nth_error after 1 = nth_error before 1.
Proof.
  apply (@injection_leaves_other_pixels ten (of_Z 2000) 0 1 1 clean_stack).
  - apply wf_stack; reflexivity.
  - unfold nrows; simpl; lia.
  - simpl; lia.
  - right; lia.
Defined.

(** X8: the outlier cell on any stack.  [bits[0, start:stop] = v] raises an
    IndexError exactly when the stack holds no image.  Otherwise it returns
    a stack of the same shape, whatever the bounds of the slice: a slice
    that reaches past the last pixel is cut there, and an empty one changes
    nothing. *)
Theorem inject_at_outcome (start stop : nat) (v : fval) (bits : ndarray fval) :
  wf bits ->
  match inject_at start stop v bits with
  | Raise e => e = IndexError /\ nrows bits = 0
  | Ok injected =>
      0 < nrows bits /\ wf injected /\
      ncols injected = ncols bits /\ nrows injected = nrows bits /\
      (stop <= start -> injected = bits)
  end.
Proof.
  intros Hwf. destruct bits as [p [|first rest]]; [now split|].
  rewrite inject_at_ok. unfold wf, nrows in *; simpl in *.
  inversion Hwf as [|? ? Hfirst Hrest]; subst.
  repeat split; auto; try lia.
  - constructor; auto. apply fill_slice_length.
  - intros Hs. do 2 f_equal.
    apply nth_ext with (d := NaN) (d' := NaN); [apply fill_slice_length|].
    intros j _. apply fill_slice_outside. lia.
Qed.

Lemma inject_at_outcome_witness :
  match inject_at 1 5 (of_Z 2000) clean_stack with
  | Raise e => e = IndexError /\ nrows clean_stack = 0
  | Ok injected =>
      0 < nrows clean_stack /\ wf injected /\
      ncols injected = ncols clean_stack /\ nrows injected = nrows clean_stack /\
      (5 <= 1 -> injected = clean_stack)
  end.
Proof.
  apply (@inject_at_outcome 1 5 (of_Z 2000) clean_stack).
  apply wf_stack; reflexivity.
Defined.

(** ** A larger threshold excludes less *)

Lemma gtb_mono d t t' :
  F.leb t t' = true -> (d >? t')%F = true -> (d >? t)%F = true.
Proof.
  unfold F.gtb.
  destruct t as [a| | |], t' as [b| | |], d as [q| | |];
    try discriminate; try reflexivity.
  rewrite leb_fin, !ltb_fin. apply Qcle_lt_trans.
Qed.

(** X9: raising the threshold never excludes a sample that the lower
    threshold keeps: every entry of the mask at the higher threshold is an
    entry of the mask at the lower one. *)
Theorem higher_threshold_excludes_less
    (t t' : fval) (bits : ndarray fval) (exclude exclude' : ndarray bool) (i j : nat) :
  wf bits -> j < ncols bits -> F.leb t t' = true ->
  exclude_at t bits = Ok exclude ->
  exclude_at t' bits = Ok exclude' ->
  nth_error (column false j exclude') i = Some true ->
  nth_error (column false j exclude) i = Some true.
Proof.
  intros Hwf Hj Ht He He' Hi.
  destruct (exclude_at_ok t Hwf) as (m & Hm & _ & _ & _ & Hcol).
  destruct (exclude_at_ok t' Hwf) as (m' & Hm' & _ & _ & _ & Hcol').
  rewrite He in Hm; injection Hm as <-.
  rewrite He' in Hm'; injection Hm' as <-.
  rewrite Hcol by exact Hj. rewrite Hcol' in Hi by exact Hj.
  unfold exclude1 in *. rewrite nth_error_map in *.
  destruct (nth_error (column NaN j bits) i) as [x|]; [|discriminate].
  simpl in *. injection Hi as Hi. f_equal. now apply gtb_mono with t'.
Qed.

Lemma higher_threshold_excludes_less_witness :
  nth_error (column false 0 (Array2 1 [[true]; [false]; [false]; [false]; [false]])) 0
  = Some true.
Proof.
  apply (@higher_threshold_excludes_less (of_Z 5) ten high_outlier
           (Array2 1 [[true]; [false]; [false]; [false]; [false]])
           (Array2 1 [[true]; [false]; [false]; [false]; [false]]) 0 0).
  - apply wf_stack; reflexivity.
  - simpl; lia.
  - reflexivity.
  - vm_compute; reflexivity.
  - vm_compute; reflexivity.
  - reflexivity.
Defined.

(** ** The order of the images *)

Lemma existsb_perm {A} (p : A -> bool) l l' :
  Permutation l l' -> existsb p l = existsb p l'.
Proof.
  induction 1 as [|x l l' _ IH|x y l|l l' l'' _ IH1 _ IH2]; simpl; auto.
  - congruence.
  - destruct (p x), (p y); reflexivity.
  - congruence.
Qed.

Lemma sort_leb_antisym x y :
  sort_leb x y = true -> sort_leb y x = true -> x = y.
Proof.
  destruct x as [a| | |], y as [b| | |]; try discriminate; try reflexivity.
  unfold sort_leb. rewrite !leb_fin. intros H1 H2. f_equal.
  now apply Qcle_antisym.
Qed.

Lemma insert_perm x l : Permutation (insert x l) (x :: l).
Proof.
  induction l as [|y l IH]; simpl; auto.
  destruct (sort_leb x y); auto.
  apply perm_trans with (y :: x :: l); [now apply perm_skip | apply perm_swap].
Qed.

Lemma sort_perm l : Permutation (sort l) l.
Proof.
  induction l as [|x l IH]; simpl; auto.
  apply perm_trans with (x :: sort l); [apply insert_perm | now apply perm_skip].
Qed.

Lemma insert_sorted x l :
  StronglySorted (fun a b => sort_leb a b = true) l ->
  StronglySorted (fun a b => sort_leb a b = true) (insert x l).
Proof.
  induction 1 as [|y l Hl IH Hy]; simpl.
  - constructor; constructor.
  - destruct (sort_leb x y) eqn:E.
    + constructor; [now constructor|]. constructor; auto.
      revert Hy. apply Forall_impl. intros z Hz. now apply sort_leb_trans with y.
    + constructor; auto.
      apply Forall_forall. intros z Hz.
      apply (Permutation_in _ (insert_perm x l)) in Hz. destruct Hz as [<- | Hz].
      * now apply sort_leb_total.
      * rewrite Forall_forall in Hy. auto.
Qed.

Lemma sort_sorted l : StronglySorted (fun a b => sort_leb a b = true) (sort l).
Proof.
  induction l as [|x l IH]; simpl; [constructor | now apply insert_sorted].
Qed.

Lemma sorted_perm_eq l : forall l',
  StronglySorted (fun a b => sort_leb a b = true) l ->
  StronglySorted (fun a b => sort_leb a b = true) l' ->
  Permutation l l' -> l = l'.
Proof.
  induction l as [|x l IH]; intros l' Hl Hl' Hp.
  - apply Permutation_nil in Hp. now subst.
  - destruct l' as [|y l'].
    + apply Permutation_sym, Permutation_nil in Hp. discriminate.
    + inversion Hl as [|? ? Hsl Hx]; subst.
      inversion Hl' as [|? ? Hsl' Hy]; subst.
      assert (Hxy : x = y).
      { assert (Hin : In x (y :: l'))
          by (apply (Permutation_in _ Hp); now left).
        assert (Hin' : In y (x :: l))
          by (apply (Permutation_in _ (Permutation_sym Hp)); now left).
        destruct Hin as [Heq | Hin]; [now subst|].
        destruct Hin' as [Heq | Hin']; [now subst|].
        rewrite Forall_forall in Hx, Hy.
        apply sort_leb_antisym; auto. }
      subst y. f_equal. apply IH; auto.
      now apply Permutation_cons_inv with x.
Qed.

(** The ordered data depend on the samples only, not on their order. *)
Lemma sort_of_perm l l' : Permutation l l' -> sort l = sort l'.
Proof.
  intros H. apply sorted_perm_eq; try apply sort_sorted.
  apply perm_trans with l; [apply sort_perm|].
  apply perm_trans with l'; [exact H | apply Permutation_sym, sort_perm].
Qed.

Lemma median1_perm l l' : Permutation l l' -> median1 l = median1 l'.
Proof.
  intros H. unfold median1.
  now rewrite (sort_of_perm H), (Permutation_length H), (existsb_perm _ H).
Qed.

Lemma sigma1_perm l l' : Permutation l l' -> sigma1 l = sigma1 l'.
Proof.
  intros H. unfold sigma1. rewrite (median1_perm H). f_equal.
  apply median1_perm. now apply Permutation_map.
Qed.

Lemma median_perm bits bits' :
  ncols bits' = ncols bits -> Permutation (rows bits) (rows bits') ->
  median bits' = median bits.
Proof.
  intros Hnc Hp. unfold median, Np.median, reduce0. rewrite Hnc.
  apply map_ext. intros j. apply median1_perm.
  unfold column. now apply Permutation_map, Permutation_sym.
Qed.

Lemma wf_perm (bits bits' : ndarray fval) :
  wf bits -> ncols bits' = ncols bits -> Permutation (rows bits) (rows bits') ->
  wf bits'.
Proof.
  intros Hwf Hnc Hp. unfold wf in *. rewrite Hnc. apply Forall_forall. intros r Hr.
  apply (Permutation_in _ (Permutation_sym Hp)) in Hr.
  rewrite Forall_forall in Hwf. auto.
Qed.

Lemma mad_sigma_perm bits bits' :
  wf bits -> ncols bits' = ncols bits -> Permutation (rows bits) (rows bits') ->
  mad_sigma bits' = mad_sigma bits.
Proof.
  intros Hwf Hnc Hp. unfold mad_sigma.
  destruct (mad_std_ok Hwf) as (sig & -> & Hlen & Hnth).
  destruct (mad_std_ok (@wf_perm _ _ Hwf Hnc Hp)) as (sig' & -> & Hlen' & Hnth').
  f_equal. apply nth_ext with (d := NaN) (d' := NaN); [congruence|].
  intros j Hj. rewrite Hlen', Hnc in Hj.
  rewrite Hnth', Hnth by congruence.
  apply sigma1_perm. unfold column. now apply Permutation_map, Permutation_sym.
Qed.

(** The mask, image by image: the row of an image is computed from that
    image, the medians and the scales. *)
Lemma exclude_at_rows thresh bits :
  wf bits ->
  exists sig, mad_sigma bits = Ok sig /\
    exclude_at thresh bits
    = Ok (Array2 (ncols bits)
            (map (exclude_row thresh (median bits) sig) (rows bits))).
Proof.
  intros Hwf. unfold exclude_at.
  destruct (mad_std_ok Hwf) as (sig & Hs & Hlen & _).
  exists sig. split; [exact Hs|].
  unfold mad_sigma. rewrite Hs. cbn [bind].
  unfold subtract, divide.
  rewrite broadcast_ok by apply median_length. cbn [bind].
  rewrite broadcast_ok by (simpl; exact Hlen). cbn [bind].
  unfold greater; simpl. now rewrite !map_map.
Qed.

Lemma combine_with_map {A B} (g : A -> B) l :
  List.combine l (map g l) = map (fun x => (x, g x)) l.
Proof. induction l as [|x l IH]; simpl; congruence. Qed.

(** X11: which samples are excluded does not depend on the order of the
    images.  Two stacks that hold the same images in a different order have
    the same robust scale at every pixel, and their masks hold the same rows
    in that different order: an image and its row of the mask stay
    together. *)
Theorem image_order_does_not_change_the_mask
    (thresh : fval) (bits bits' : ndarray fval) :
  wf bits -> ncols bits' = ncols bits ->
  Permutation (rows bits) (rows bits') ->
  mad_sigma bits' = mad_sigma bits /\
  exists exclude exclude',
    exclude_at thresh bits = Ok exclude /\
    exclude_at thresh bits' = Ok exclude' /\
    Permutation (List.combine (rows bits) (rows exclude))
                (List.combine (rows bits') (rows exclude')).
Proof.
  intros Hwf Hnc Hp.
  pose proof (@mad_sigma_perm _ _ Hwf Hnc Hp) as Hsig.
  split; [exact Hsig|].
  destruct (exclude_at_rows thresh Hwf) as (sig & Hs & Hm).
  destruct (exclude_at_rows thresh (@wf_perm _ _ Hwf Hnc Hp)) as (sig' & Hs' & Hm').
  rewrite Hsig, Hs in Hs'; injection Hs' as <-.
  rewrite (@median_perm _ _ Hnc Hp) in Hm'.
  eexists; eexists; split; [exact Hm | split; [exact Hm'|]].
  simpl. rewrite !combine_with_map. now apply Permutation_map.
Qed.

Lemma image_order_does_not_change_the_mask_witness :
  mad_sigma (stack 1 [[99]; [100]; [101]; [102]; [202]]%Z) = mad_sigma high_outlier /\
  exists exclude exclude',
    exclude_at ten high_outlier = Ok exclude /\
    exclude_at ten (stack 1 [[99]; [100]; [101]; [102]; [202]]%Z) = Ok exclude' /\
    Permutation (List.combine (rows high_outlier) (rows exclude))
                (List.combine (rows (stack 1 [[99]; [100]; [101]; [102]; [202]]%Z))
                   (rows exclude')).
Proof.
  apply (@image_order_does_not_change_the_mask ten high_outlier
           (stack 1 [[99]; [100]; [101]; [102]; [202]]%Z)).
  - apply wf_stack; reflexivity.
  - reflexivity.
  - apply Permutation_rev.
Defined.

(** * The slices of the frames *)

Lemma slice_from_zero {A} b (l : list A) : slice 0 b l = firstn b l.
Proof. unfold slice. now rewrite Nat.sub_0_r. Qed.

Lemma slice_to_end {A} a (l : list A) : slice a (length l) l = skipn a l.
Proof.
  unfold slice. rewrite <- (length_skipn a l). apply firstn_all.
Qed.

(** Three adjacent slices make up the sequence. *)
Lemma slices_adjacent {A} a b (l : list A) :
  a <= b -> slice 0 a l ++ slice a b l ++ slice b (length l) l = l.
Proof.
  intros H. rewrite slice_from_zero, slice_to_end. unfold slice.
  replace b with ((b - a) + a) at 2 by lia.
  rewrite <- skipn_skipn, firstn_skipn. apply firstn_skipn.
Qed.

Lemma slice_length {A} a b (l : list A) :
  b <= length l -> length (slice a b l) = b - a.
Proof.
  intros H. unfold slice. rewrite length_firstn, length_skipn. lia.
Qed.

Lemma perm_three {A} (l m r I L R : list A) :
  Permutation ((m ++ I) ++ ((l ++ L) ++ (r ++ R)))
              ((l ++ m ++ r) ++ (I ++ (L ++ R))).
Proof.
  rewrite <- !app_assoc.
  apply perm_trans with (l ++ m ++ I ++ L ++ r ++ R).
  - apply perm_trans with (m ++ l ++ I ++ L ++ r ++ R).
    + apply Permutation_app_head, Permutation_app_swap_app.
    + apply Permutation_app_swap_app.
  - do 2 apply Permutation_app_head.
    apply perm_trans with (I ++ r ++ L ++ R).
    + apply Permutation_app_head, Permutation_app_swap_app.
    + apply Permutation_app_swap_app.
Qed.

Lemma row_parts {A} (r : list A) :
  45 <= length r ->
  py_slice None (Some 15%Z) r ++ py_slice (Some 15%Z) (Some (-30)%Z) r
    ++ py_slice (Some (-30)%Z) None r = r.
Proof.
  intros H. unfold py_slice, span, bound.
  change (15 <? 0)%Z with false. change (-30 <? 0)%Z with true. cbn iota.
  replace (Nat.min (Z.to_nat 15) (length r)) with 15 by lia.
  replace (Z.to_nat (Z.max 0 (-30 + Z.of_nat (length r)))) with (length r - 30) by lia.
  apply slices_adjacent. lia.
Qed.

(** X12: the two histograms of notebook 02.00 sort the pixels of a frame
    into two classes.  On a frame at least 45 columns wide, the interior
    pixels [data[:, 15:-30]] and the edge pixels ([data[:, :15]] and
    [data[:, -30:]]) together are the pixels of the frame, each taken
    once. *)
Theorem interior_and_edges_cover_the_frame {A} (data : ndarray A) :
  wf data -> 45 <= ncols data ->
  Permutation (interior data ++ edges data) (flatten data).
Proof.
  intros Hwf Hw. destruct data as [p rs]. unfold wf in Hwf; simpl in *.
  unfold interior, edges, flatten, columns.
  destruct (span p (Some 15%Z) (Some (-30)%Z)), (span p None (Some 15%Z)),
    (span p (Some (-30)%Z) None). simpl rows.
  induction Hwf as [|r rs Hr Hrs IH]; simpl; [constructor|].
  rewrite <- (row_parts r) at 4 by lia.
  apply perm_trans with (1 := perm_three _ _ _ _ _ _).
  now apply Permutation_app_head.
Qed.

Lemma interior_and_edges_cover_the_frame_witness :
  Permutation (interior frame_45 ++ edges frame_45) (flatten frame_45).
Proof.
  apply (@interior_and_edges_cover_the_frame nat frame_45).
  - repeat constructor.
  - simpl; lia.
Defined.

Lemma concat_map_length {A B} (g : list A -> list B) k p rs :
  Forall (fun r => length r = p) rs ->
  (forall r, length r = p -> length (g r) = k) ->
  length (concat (map g rs)) = length rs * k.
Proof.
  intros H Hg. induction H as [|r rs Hr Hrs IH]; simpl; auto.
  rewrite length_app, IH, Hg; auto.
Qed.

Lemma concat_length_wf {A} p (rs : list (list A)) :
  Forall (fun r => length r = p) rs -> length (concat rs) = length rs * p.
Proof.
  intros H. rewrite <- (map_id rs) at 1.
  now apply concat_map_length with (p := p).
Qed.

Lemma py_slice_length {A} start stop (r : list A) :
  length (py_slice start stop r)
  = snd (span (length r) start stop) - fst (span (length r) start stop).
Proof.
  unfold py_slice. destruct (span (length r) start stop) as [a b] eqn:E.
  simpl. apply slice_length.
  unfold span in E. injection E as _ <-.
  destruct stop as [i|]; [|lia]. unfold bound.
  destruct (Z.ltb_spec i 0); lia.
Qed.

Lemma span_interior p : span p (Some 15%Z) (Some (-30)%Z) = (Nat.min 15 p, p - 30).
Proof.
  unfold span, bound. change (15 <? 0)%Z with false. change (-30 <? 0)%Z with true.
  cbn iota. f_equal; lia.
Qed.

Lemma span_left p : span p None (Some 15%Z) = (0, Nat.min 15 p).
Proof.
  unfold span, bound. change (15 <? 0)%Z with false. cbn iota. f_equal; lia.
Qed.

Lemma span_right p : span p (Some (-30)%Z) None = (p - 30, p).
Proof.
  unfold span, bound. change (-30 <? 0)%Z with true. cbn iota. f_equal; lia.
Qed.

(** X13: on a frame narrower than 45 columns the two classes of pixels
    are no partition any more.  No pixel is an interior pixel, and the edge
    slices [data[:, :15]] and [data[:, -30:]] overlap: the edge pixels are
    more than the frame has. *)
Theorem narrow_frame_edges_overlap {A} (data : ndarray A) :
  wf data -> 0 < nrows data -> 0 < ncols data -> ncols data < 45 ->
  interior data = [] /\
  length (flatten data) < length (edges data).
Proof.
  intros Hwf Hn Hw1 Hw2. destruct data as [p rs].
  unfold wf, nrows in *; simpl in *.
  unfold interior, edges, flatten, columns.
  destruct (span p (Some 15%Z) (Some (-30)%Z)), (span p None (Some 15%Z)),
    (span p (Some (-30)%Z) None). simpl rows. split.
  - apply length_zero_iff_nil.
    rewrite (@concat_map_length _ _ _ 0 p); auto.
    intros r Hr. rewrite py_slice_length, Hr, span_interior. cbn [fst snd]. lia.
  - rewrite length_app, (concat_length_wf Hwf).
    rewrite (@concat_map_length _ _ _ (Nat.min 15 p) p),
            (@concat_map_length _ _ _ (Nat.min 30 p) p); auto.
    + nia.
    + intros r Hr. rewrite py_slice_length, Hr, span_right. cbn [fst snd]. lia.
    + intros r Hr. rewrite py_slice_length, Hr, span_left. cbn [fst snd]. lia.
Qed.

Lemma narrow_frame_edges_overlap_witness :
  interior frame_20 = [] /\
  length (flatten frame_20) < length (edges frame_20).
Proof.
  apply (@narrow_frame_edges_overlap nat frame_20).
  - repeat constructor.
  - unfold nrows; simpl; lia.
  - simpl; lia.
  - simpl; lia.
Defined.

(** X14: the slices of the dark-current notebook.  On a frame at least
    2055 columns wide, the part kept by [trim_image(new_d[:, :2048])] has
    2048 columns, the overscan region [d[:, 2055:]] has the columns from 2055
    on, and every row is its trimmed part, then the seven columns 2048 to
    2054, which are in neither, then its overscan part. *)
Theorem trim_and_overscan_leave_seven_columns {A} (d : ndarray A) :
  wf d -> 2055 <= ncols d ->
  ncols (trimmed d) = 2048 /\
  ncols (overscan d) = ncols d - 2055 /\
  Forall (fun r =>
            py_slice None (Some 2048%Z) r ++ py_slice (Some 2048%Z) (Some 2055%Z) r
              ++ py_slice (Some 2055%Z) None r = r /\
            length (py_slice (Some 2048%Z) (Some 2055%Z) r) = 7)
         (rows d).
Proof.
  intros Hwf Hw. destruct d as [p rs]. unfold wf in Hwf; simpl in *.
  unfold trimmed, overscan, columns, span, bound; simpl ncols.
  change (2048 <? 0)%Z with false. change (2055 <? 0)%Z with false. cbn iota.
  simpl ncols. repeat split; try lia.
  revert Hwf. apply Forall_impl. intros r Hr. split.
  - unfold py_slice, span, bound.
    change (2048 <? 0)%Z with false. change (2055 <? 0)%Z with false. cbn iota.
    replace (Nat.min (Z.to_nat 2048) (length r)) with (Z.to_nat 2048) by lia.
    replace (Nat.min (Z.to_nat 2055) (length r)) with (Z.to_nat 2055) by lia.
    apply slices_adjacent. lia.
  - rewrite py_slice_length. unfold span, bound. cbn [fst snd].
    change (2048 <? 0)%Z with false. change (2055 <? 0)%Z with false. cbn iota. lia.
Qed.

Lemma trim_and_overscan_leave_seven_columns_witness :
  ncols (trimmed frame_2060) = 2048 /\
  ncols (overscan frame_2060) = ncols frame_2060 - 2055 /\
  Forall (fun r =>
            py_slice None (Some 2048%Z) r ++ py_slice (Some 2048%Z) (Some 2055%Z) r
              ++ py_slice (Some 2055%Z) None r = r /\
            length (py_slice (Some 2048%Z) (Some 2055%Z) r) = 7)
         (rows frame_2060).
Proof.
  apply (@trim_and_overscan_leave_seven_columns nat frame_2060).
  - repeat constructor.
  - simpl; lia.
Defined.

(** * Some sample is always kept *)


